(** * docutils.frontend: option merging, threshold resolution, argument
    validation and configuration-key normalisation.

    A shallow embedding of [docutils/frontend.py] (Python 2).  Python
    objects that the module handles are embedded as a small universe of
    values; exceptions are an explicit result type; the objects the module
    mutates (the parser, the [values] object, the [args] list) are threaded
    through a state-and-exception monad in which the state survives a raised
    exception, as it does in Python. *)

From Stdlib Require Import ZArith Ascii String List Lia Bool.
From stdpp Require Import base option list gmap strings pretty.

Local Open Scope Z_scope.
Local Open Scope string_scope.
Local Open Scope list_scope.

(** ** Python values, exceptions, results *)

Module Py.

(** The Python values that reach the functions of the module: [None],
    integers, byte strings and lists of byte strings (the [choices] of an
    option). *)
Inductive value :=
| VNone
| VInt (n : Z)
| VStr (s : string)
| VList (l : list string).

(** The exceptions that the module raises or lets through.  [OptionError]
    is what [self.error(msg)] produces; [OptionConflictError] is what
    registering an already registered option string produces. *)
Inductive exn :=
| ValueError
| TypeError
| KeyError
| AttributeError
| IndexError
| OptionError (msg : string)
| OptionConflictError (option_string : string).

(** [Diverge] is the outcome of a loop whose iteration bound is exhausted;
    the loops of the module are shown never to produce it. *)
Inductive result (A : Type) :=
| Ok (a : A)
| Raise (e : exn)
| Diverge.
Arguments Ok {A} a.
Arguments Raise {A} e.
Arguments Diverge {A}.

(** [try: body except <handled>: handler]. *)
Definition try_except {A} (body : result A) (handled : exn -> bool)
    (handler : result A) : result A :=
  match body with
  | Raise e => if handled e then handler else Raise e
  | r => r
  end.

Definition result_bind {A B} (r : result A) (k : A -> result B) : result B :=
  match r with
  | Ok a => k a
  | Raise e => Raise e
  | Diverge => Diverge
  end.

Definition is_ValueError (e : exn) : bool :=
  match e with ValueError => true | _ => false end.

Definition is_KeyError_or_AttributeError (e : exn) : bool :=
  match e with KeyError | AttributeError => true | _ => false end.

(** *** Characters *)

Definition dquote : ascii := "034"%char.
Definition squote : ascii := "039"%char.
Definition backslash : ascii := "092"%char.

(** C [isspace] in the C locale: space, [\t], [\n], [\v], [\f], [\r]. *)
Definition isspace (c : ascii) : bool :=
  let n := N_of_ascii c in ((9 <=? n) && (n <=? 13) || (n =? 32))%N.

Definition isdigit (c : ascii) : bool :=
  let n := N_of_ascii c in ((48 <=? n) && (n <=? 57))%N.

Definition digit_value (c : ascii) : Z := Z.of_N (N_of_ascii c) - 48.

Definition isupper (c : ascii) : bool :=
  let n := N_of_ascii c in ((65 <=? n) && (n <=? 90))%N.

Definition tolower (c : ascii) : ascii :=
  if isupper c then ascii_of_N (N_of_ascii c + 32) else c.

(** *** [str] methods *)

Fixpoint map_string (f : ascii -> ascii) (s : string) : string :=
  match s with
  | EmptyString => EmptyString
  | String c s' => String (f c) (map_string f s')
  end.

(** [s.lower()] on a byte string. *)
Definition lower (s : string) : string := map_string tolower s.

Fixpoint string_mem (c : ascii) (s : string) : bool :=
  match s with
  | EmptyString => false
  | String d s' => if Ascii.eqb c d then true else string_mem c s'
  end.

(** [s.replace(old, new)] for a non-empty [old]: occurrences are found
    left to right and do not overlap.  [skip] counts the characters of an
    occurrence that has just been replaced and are still to be dropped. *)
Fixpoint replace_from (old new : string) (skip : nat) (s : string) : string :=
  match s with
  | EmptyString => EmptyString
  | String c s' =>
      match skip with
      | S k => replace_from old new k s'
      | O =>
          if String.prefix old s
          then new +:+ replace_from old new (Nat.pred (String.length old)) s'
          else String c (replace_from old new O s')
      end
  end.

Definition replace (old new s : string) : string := replace_from old new O s.

(** *** [int(x)] *)

Fixpoint skip_space (s : string) : string :=
  match s with
  | String c s' => if isspace c then skip_space s' else s
  | EmptyString => EmptyString
  end.

(** Reads the longest prefix of decimal digits: the value read so far, whether
    a digit was read, and what is left. *)
Fixpoint read_digits (acc : Z) (seen : bool) (s : string) : Z * bool * string :=
  match s with
  | String c s' =>
      if isdigit c then read_digits (10 * acc + digit_value c) true s'
      else (acc, seen, s)
  | EmptyString => (acc, seen, EmptyString)
  end.

(** [int(s)] for a byte string in base ten, as CPython 2 reads it: leading
    white space, an optional sign, white space again, at least one decimal
    digit, trailing white space, and nothing else.  The result is not
    bounded: a literal that does not fit a machine word is a [long]. *)
Definition int_of_str (s : string) : option Z :=
  let s1 := skip_space s in
  let '(negative, s2) :=
    match s1 with
    | String "+" r => (false, r)
    | String "-" r => (true, r)
    | _ => (false, s1)
    end in
  let '(n, seen, rest) := read_digits 0 false (skip_space s2) in
  if seen then
    match skip_space rest with
    | EmptyString => Some (if negative then - n else n)
    | _ => None
    end
  else None.

(** [int(x)]: an integer is returned as it is, a string is parsed
    ([ValueError] when it is no literal), anything else is a [TypeError]. *)
Definition int (x : value) : result Z :=
  match x with
  | VInt n => Ok n
  | VStr s => match int_of_str s with Some n => Ok n | None => Raise ValueError end
  | VNone | VList _ => Raise TypeError
  end.

(** [x.lower()]: only strings have the method. *)
Definition lower_method (x : value) : result string :=
  match x with
  | VStr s => Ok (lower s)
  | _ => Raise AttributeError
  end.

(** [d[k]] on a dictionary with string keys. *)
Definition getitem {A} (d : gmap string A) (k : string) : result A :=
  match d !! k with
  | Some a => Ok a
  | None => Raise KeyError
  end.

(** Truth value of an object, as [if x:] tests it. *)
Definition truth (x : value) : bool :=
  match x with
  | VNone => false
  | VInt n => negb (Z.eqb n 0)
  | VStr EmptyString => false
  | VStr _ => true
  | VList [] => false
  | VList _ => true
  end.

(** *** [repr(x)] *)

Definition hex_digit (n : N) : ascii :=
  if (n <? 10)%N then ascii_of_N (48 + n) else ascii_of_N (87 + n).

(** One character of the [repr] of a byte string delimited by [quote]. *)
Definition repr_char (quote c : ascii) : string :=
  let n := N_of_ascii c in
  if Ascii.eqb c quote || Ascii.eqb c backslash then String backslash (String c EmptyString)
  else if (n =? 9)%N then String backslash "t"
  else if (n =? 10)%N then String backslash "n"
  else if (n =? 13)%N then String backslash "r"
  else if (n <? 32)%N || (127 <=? n)%N
       then String backslash (String "x" (String (hex_digit (n / 16)) (String (hex_digit (n mod 16)) EmptyString)))
  else String c EmptyString.

Fixpoint repr_chars (quote : ascii) (s : string) : string :=
  match s with
  | EmptyString => EmptyString
  | String c s' => repr_char quote c +:+ repr_chars quote s'
  end.

(** [repr(s)] of a byte string: single quotes, unless the string holds a
    single quote and no double quote. *)
Definition repr_str (s : string) : string :=
  let quote := if string_mem squote s && negb (string_mem dquote s) then dquote else squote in
  String quote (repr_chars quote s +:+ String quote EmptyString).

Fixpoint join (sep : string) (l : list string) : string :=
  match l with
  | [] => EmptyString
  | [x] => x
  | x :: l' => x +:+ sep +:+ join sep l'
  end.

(** [repr(x)].  The module formats strings only (the one call is reached
    after [int] has refused its argument, which it does for strings alone);
    the trailing [L] that Python 2 writes after an integer too large for a
    machine word is left out. *)
Definition repr (x : value) : string :=
  match x with
  | VNone => "None"
  | VInt n => pretty n
  | VStr s => repr_str s
  | VList l => "[" +:+ join ", " (map repr_str l) +:+ "]"
  end.

(** *** A state-and-exception monad

    [M S A] is a computation over a mutable object of type [S]: it ends
    with a result and with the object as the computation left it, also when
    the result is an exception. *)
Definition M (S A : Type) : Type := S -> result A * S.

Definition ret {S A} (a : A) : M S A := fun s => (Ok a, s).

Definition bind {S A B} (m : M S A) (k : A -> M S B) : M S B :=
  fun s =>
    match m s with
    | (Ok a, s') => k a s'
    | (Raise e, s') => (Raise e, s')
    | (Diverge, s') => (Diverge, s')
    end.

Definition raise {S A} (e : exn) : M S A := fun s => (Raise e, s).

Definition lift {S A} (r : result A) : M S A := fun s => (r, s).

Definition get {S} : M S S := fun s => (Ok s, s).

Definition modify {S} (f : S -> S) : M S unit := fun s => (Ok tt, f s).

(** Runs a computation over the second component of a pair of objects. *)
Definition on_snd {S T A} (m : M T A) : M (S * T) A :=
  fun st => let '(r, t') := m st.2 in (r, (st.1, t')).

(** Runs a computation over the first component of a pair of objects. *)
Definition on_fst {S T A} (m : M S A) : M (S * T) A :=
  fun st => let '(r, s') := m st.1 in (r, (s', st.2)).

End Py.

Import Py.

Declare Scope py_scope.
Delimit Scope py_scope with py.
Notation "x <- m ;; k" := (bind m (fun x => k))
  (at level 100, m at next level, right associativity) : py_scope.
Notation "m ;;; k" := (bind m (fun _ => k))
  (at level 100, right associativity) : py_scope.

(** ** Option specifications *)

(** One entry of an option specification:
    [(help_text, option_strings, kwargs)]. *)
Record entry := Entry {
  help_text : value;
  option_strings : list string;
  kwargs : gmap string value
}.

(** An element of a [cmdline_options] tuple: a title or a description (a
    string or [None]), or a tuple of entries. *)
Inductive item :=
| Atom (v : value)
| Entries (es : list entry).

(** Truth value of an element, as [if title:] tests it. *)
Definition item_truth (x : item) : bool :=
  match x with
  | Atom v => truth v
  | Entries [] => false
  | Entries _ => true
  end.

(** A component: an object with a [cmdline_options] attribute. *)
Module Component.
Record t := Make { cmdline_options : list item }.
End Component.

(** ** The option container *)

Module optik.

(** Modelled from the spec: [optik.SUPPRESS_HELP], the help text that marks
    a hidden option; the [optik] module is not among the sources. *)
Definition SUPPRESS_HELP : value := VStr "SUPPRESSHELP".

(** Modelled from the spec: one flag definition, as [add_option] makes it
    from the option strings and the keyword arguments of the call. *)
Record Option := MakeOption {
  opt_strings : list string;
  opt_help : value;
  opt_attrs : gmap string value
}.

(** Modelled from the spec: a named section, [optik.OptionGroup]: its
    title, its description and the flag definitions registered into it, in
    the order of registration. *)
Record OptionGroup := MakeGroup {
  title : item;
  description : item;
  group_option_list : list Option
}.

(** Modelled from the spec: the option bucket, [optik.OptionParser]: the
    version string, the shared top-level bucket, the named sections in the
    order of their creation, and the flag definitions bound so far, over all
    buckets, in the order of registration (what option strings are checked
    against for collisions). *)
Record OptionParser := MakeParser {
  version : value;
  option_list : list Option;
  option_groups : list OptionGroup;
  registered : list Option
}.

(** What [add_option] is called on: the parser itself or one of its
    sections, named by its position in [option_groups]. *)
Inductive container :=
| Self
| Group (i : nat).

(** Modelled from the spec: [optik.OptionParser.__init__], which leaves an
    empty bucket holding the version string it was given ([None] when none
    was). *)
Definition new_parser (version : value) : OptionParser :=
  MakeParser version [] [] [].

(** Modelled from the spec: [optik.OptionGroup(parser, title, description)],
    a new section without options. *)
Definition new_group (title description : item) : OptionGroup :=
  MakeGroup title description [].

(** Modelled from the spec: [parser.add_option_group(group)] appends the
    section to the sections of the parser; later calls on the group reach
    it there. *)
Definition add_option_group (g : OptionGroup) : M OptionParser container :=
  fun p =>
    (Ok (Group (length (option_groups p))),
     MakeParser (version p) (option_list p) (option_groups p ++ [g]) (registered p)).

Definition registered_strings (p : OptionParser) : list string :=
  concat (map opt_strings (registered p)).

Definition add_to_group (o : Option) (g : OptionGroup) : OptionGroup :=
  MakeGroup (title g) (description g) (group_option_list g ++ [o]).

(** Modelled from the spec: [container.add_option], called with the option
    strings, the help text and the keyword arguments: registering an entry that shares an option string with an
    entry registered before, in whatever bucket, fails; otherwise the flag
    definition is appended to the bucket. *)
Definition add_option (c : container) (strings : list string) (help : value)
    (attrs : gmap string value) : M OptionParser unit :=
  fun p =>
    match List.find (fun s => bool_decide (s ∈ registered_strings p)) strings with
    | Some s => (Raise (OptionConflictError s), p)
    | None =>
        let o := MakeOption strings help attrs in
        match c with
        | Self =>
            (Ok tt, MakeParser (version p) (option_list p ++ [o])
                      (option_groups p) (registered p ++ [o]))
        | Group i =>
            (Ok tt, MakeParser (version p) (option_list p)
                      (alter (add_to_group o) i (option_groups p))
                      (registered p ++ [o]))
        end
    end.

(** Modelled from the spec: [parser.error(msg)] fails with the message;
    the call does not return. *)
Definition error {A} (msg : string) : result A := Raise (OptionError msg).

End optik.

(** ** [class OptionParser(optik.OptionParser)] *)

Module OptionParser.

(** ['info 1 warning 2 error 3 severe 4 none 5'.split()] *)
Definition threshold_choices : list string :=
  String.words "info 1 warning 2 error 3 severe 4 none 5".

Definition thresholds : gmap string Z :=
  {[ "info" := 1; "warning" := 2; "error" := 3; "severe" := 4; "none" := 5 ]}.

(** A string between double quotes. *)
Definition quoted (s : string) : string :=
  String dquote (s +:+ String dquote EmptyString).

Definition kw (l : list (string * value)) : gmap string value := list_to_map l.

Definition cmdline_options : list item :=
  [ Atom (VStr "General Docutils Options");
    Atom VNone;
    Entries
      [ Entry (VStr ("Include a " +:+ quoted "Generated by Docutils"
                     +:+ " credit with a link, at the end of the document."))
          ["--generator"; "-g"] (kw [("action", VStr "store_true")]);
        Entry (VStr "Do not include a generator credit.")
          ["--no-generator"]
          (kw [("action", VStr "store_false"); ("dest", VStr "generator")]);
        Entry (VStr "Include the date at the end of the document (UTC).")
          ["--date"; "-d"]
          (kw [("action", VStr "store_const"); ("const", VStr "%Y-%m-%d");
               ("dest", VStr "datestamp")]);
        Entry (VStr "Include the time & date at the end of the document (UTC).")
          ["--time"; "-t"]
          (kw [("action", VStr "store_const"); ("const", VStr "%Y-%m-%d %H:%M UTC");
               ("dest", VStr "datestamp")]);
        Entry (VStr "Do not include a datestamp of any kind.")
          ["--no-datestamp"]
          (kw [("action", VStr "store_const"); ("const", VNone);
               ("dest", VStr "datestamp")]);
        Entry (VStr ("Include a " +:+ quoted "View document source." +:+ " link."))
          ["--source-link"; "-s"] (kw [("action", VStr "store_true")]);
        Entry (VStr ("Do not include a " +:+ quoted "(View document source)" +:+ " link."))
          ["--no-source-link"]
          (kw [("action", VStr "store_false"); ("dest", VStr "source_link")]);
        Entry (VStr ("Set verbosity threshold; report system messages at or higher than "
                     +:+ "<level> (by name or number: " +:+ quoted "info" +:+ " or "
                     +:+ quoted "1" +:+ ", warning/2, error/3, "
                     +:+ "severe/4; also, " +:+ quoted "none" +:+ " or " +:+ quoted "5"
                     +:+ ").  Default is 2 (warning)."))
          ["--report"; "-r"]
          (kw [("choices", VList threshold_choices); ("default", VInt 2);
               ("dest", VStr "report_level"); ("metavar", VStr "<level>")]);
        Entry (VStr ("Report all system messages, info-level and higher.  (Same as "
                     +:+ quoted "--report=info" +:+ ".)"))
          ["--verbose"; "-v"]
          (kw [("action", VStr "store_const"); ("const", VStr "info");
               ("dest", VStr "report_level")]);
        Entry (VStr ("Set the threshold (<level>) at or above which system messages are "
                     +:+ "converted to exceptions, halting execution immediately.  Levels "
                     +:+ "as in --report.  Default is 4 (severe)."))
          ["--halt"]
          (kw [("choices", VList threshold_choices); ("dest", VStr "halt_level");
               ("default", VInt 4); ("metavar", VStr "<level>")]);
        Entry (VStr ("Same as " +:+ quoted "--halt=info"
                     +:+ ": halt processing at the slightest problem."))
          ["--strict"]
          (kw [("action", VStr "store_const"); ("const", VStr "info");
               ("dest", VStr "halt_level")]);
        Entry (VStr "Report debug-level system messages.")
          ["--debug"] (kw [("action", VStr "store_true")]);
        Entry (VStr "Do not report debug-level system messages.")
          ["--no-debug"] (kw [("action", VStr "store_false"); ("dest", VStr "debug")]);
        Entry (VStr "Send the output of system messages (warnings) to <file>.")
          ["--warnings"]
          (kw [("dest", VStr "warning_stream"); ("metavar", VStr "<file>")]);
        Entry (VStr "Specify the encoding of input text.  Default is locale-dependent.")
          ["--input-encoding"; "-i"] (kw [("metavar", VStr "<name>")]);
        Entry (VStr "Specify the encoding for output.  Default is UTF-8.")
          ["--output-encoding"; "-o"]
          (kw [("metavar", VStr "<name>"); ("default", VStr "utf-8")]);
        Entry (VStr ("Specify the language of input text (ISO 639 2-letter identifier)."
                     +:+ "  Default is " +:+ quoted "en" +:+ " (English)."))
          ["--language"; "-l"]
          (kw [("dest", VStr "language_code"); ("default", VStr "en");
               ("metavar", VStr "<name>")]);
        Entry (VStr "Show this program's version number and exit.")
          ["--version"] (kw [("action", VStr "version")]);
        Entry (VStr "Show this help message and exit.")
          ["--help"; "-h"] (kw [("action", VStr "help")]);
        Entry optik.SUPPRESS_HELP
          ["--dump-internal-document-attributes"]
          (kw [("action", VStr "store_true")]) ] ].

(** ['%%prog (Docutils %s)' % docutils.__version__]; the version of the
    package is defined outside this module and is a parameter here. *)
Definition version_template (docutils_version : string) : string :=
  "%prog (Docutils " +:+ docutils_version +:+ ")".

(** The parser seen as a component: its [cmdline_options] is the class
    attribute above. *)
Definition self_component : Component.t := Component.Make cmdline_options.

(** [cmdline_options[i:i+3]] *)
Definition slice3 (l : list item) (i : nat) : list item := take 3 (drop i l).

(** [title, description, option_spec = ...]: the right-hand side must hold
    exactly three elements. *)
Definition unpack3 {S} (l : list item) : M S (item * item * item) :=
  match l with
  | [a; b; c] => ret (a, b, c)
  | _ => raise ValueError
  end.

(** What [for (help_text, option_strings, kwargs) in option_spec] goes
    through.  A tuple of entries gives its entries.  [None] and integers
    cannot be iterated.  Iterating a string gives its characters, and a list
    of strings gives strings: the first of them already fails to unpack into
    three names, or, when it has three characters, fails to be passed as
    keyword arguments. *)
Definition iterate (option_spec : item) : result (list entry) :=
  match option_spec with
  | Entries es => Ok es
  | Atom (VNone | VInt _) => Raise TypeError
  | Atom (VStr EmptyString) => Ok []
  | Atom (VStr (String _ _)) => Raise ValueError
  | Atom (VList []) => Ok []
  | Atom (VList (x :: _)) =>
      if (String.length x =? 3)%nat then Raise TypeError else Raise ValueError
  end.

(** The call of [group.add_option] with [help=help_text], the option
    strings as positional arguments and [kwargs] as keyword arguments: a
    [help] key among [kwargs] gives the keyword twice, which is a
    [TypeError] of the call. *)
Definition call_add_option (group : optik.container) (e : entry)
    : M optik.OptionParser unit :=
  match kwargs e !! "help" with
  | Some _ => raise TypeError
  | None => optik.add_option group (option_strings e) (help_text e) (kwargs e)
  end.

Fixpoint for_each {S A} (body : A -> M S unit) (l : list A) : M S unit :=
  match l with
  | [] => ret tt
  | x :: l' => (body x ;;; for_each body l')%py
  end.

(** The body of the [while] loop, once the slice is unpacked. *)
Definition populate_triple (title description option_spec : item)
    : M optik.OptionParser unit :=
  (group <- (if item_truth title
             then optik.add_option_group (optik.new_group title description)
             else ret optik.Self) ;;
   entries <- lift (iterate option_spec) ;;
   for_each (call_add_option group) entries)%py.

(** [while i < len(cmdline_options): ...; i += 3], with a bound on the
    number of iterations. *)
Fixpoint populate_loop (fuel : nat) (cmdline_options : list item) (i : nat)
    : M optik.OptionParser unit :=
  if (i <? length cmdline_options)%nat then
    match fuel with
    | O => fun p => (Diverge, p)
    | S fuel' =>
        (tdo <- unpack3 (slice3 cmdline_options i) ;;
         populate_triple tdo.1.1 tdo.1.2 tdo.2 ;;;
         populate_loop fuel' cmdline_options (i + 3))%py
    end
  else ret tt.

Definition populate_component (component : option Component.t)
    : M optik.OptionParser unit :=
  match component with
  | Some c =>
      let cmdline_options := Component.cmdline_options c in
      populate_loop (length cmdline_options) cmdline_options 0
  | None => ret tt
  end.

Definition populate_from_components (components : list (option Component.t))
    : M optik.OptionParser unit :=
  for_each populate_component components.

(** [OptionParser(components, version=...)]: the result of the constructor
    and the parser as construction left it. *)
Definition __init__ (docutils_version : string) (version : value)
    (components : list (option Component.t)) : result unit * optik.OptionParser :=
  let self := optik.new_parser version in
  let self :=
    if truth (optik.version self) then self
    else optik.MakeParser (VStr (version_template docutils_version))
           (optik.option_list self) (optik.option_groups self) (optik.registered self) in
  populate_from_components (components ++ [Some self_component]) self.

(** [check_threshold(self, level)] *)
Definition check_threshold (level : value) : result Z :=
  try_except (int level) is_ValueError
    (try_except (result_bind (lower_method level) (getitem thresholds))
       is_KeyError_or_AttributeError
       (optik.error ("Unknown threshold: " +:+ repr level +:+ "."))).

(** [args.pop(0)] *)
Definition pop0 : M (list value) value :=
  fun args =>
    match args with
    | x :: args' => (Ok x, args')
    | [] => (Raise IndexError, [])
    end.

(** [if args:] on a list. *)
Definition nonempty (args : list value) : bool :=
  match args with [] => false | _ => true end.

(** [check_args(self, args)]: the computation runs over the [args] list,
    which it consumes. *)
Definition check_args : M (list value) (value * value) :=
  (args <- get ;;
   source <- (if nonempty args then pop0 else ret VNone) ;;
   args <- get ;;
   destination <- (if nonempty args then pop0 else ret VNone) ;;
   args <- get ;;
   (if nonempty args then lift (optik.error "Maximum 2 arguments allowed.")
    else ret tt) ;;;
   ret (source, destination))%py.

(** [values.name] and [values.name = v] on the attributes of an object. *)
Definition getattr (name : string) : M (gmap string value) value :=
  fun o =>
    match o !! name with
    | Some v => (Ok v, o)
    | None => (Raise AttributeError, o)
    end.

Definition setattr (name : string) (v : value) : M (gmap string value) unit :=
  modify (insert name v).

(** [check_values(self, values, args)]: the computation runs over the
    [values] object and the [args] list; the first component of its result
    is the [values] object itself. *)
Definition check_values
    : M (gmap string value * list value) (gmap string value * value * value) :=
  (level <- on_fst (getattr "report_level") ;;
   n <- lift (check_threshold level) ;;
   on_fst (setattr "report_level" (VInt n)) ;;;
   level <- on_fst (getattr "halt_level") ;;
   n <- lift (check_threshold level) ;;
   on_fst (setattr "halt_level" (VInt n)) ;;;
   sd <- on_snd check_args ;;
   values <- on_fst get ;;
   ret (values, sd.1, sd.2))%py.

End OptionParser.

(** ** [class ConfigParser(CP.ConfigParser)] *)

Module ConfigParser.

(** [optionstr.lower().replace('-', '_')] *)
Definition optionxform (optionstr : string) : string :=
  replace "-" "_" (lower optionstr).

End ConfigParser.

(** ** Definitions used to state the properties *)

(** *** Configuration keys *)

Definition dash_to_underscore (c : ascii) : ascii :=
  if Ascii.eqb c "-" then "_"%char else c.

(** What normalisation does to one character of a key. *)
Definition normalize_char (c : ascii) : ascii := dash_to_underscore (tolower c).

(** *** Decimal literals *)

(** The string holds decimal digits only. *)
Fixpoint all_digits (s : string) : bool :=
  match s with
  | EmptyString => true
  | String c s' => isdigit c && all_digits s'
  end.

(** *** The post-parse entry point, step by step *)

(** Resolving one field of [values] through the threshold resolver and
    overwriting it with the result. *)
Definition resolve_field (name : string) (values : gmap string value)
    : result unit * gmap string value :=
  match values !! name with
  | None => (Raise AttributeError, values)
  | Some level =>
      match OptionParser.check_threshold level with
      | Ok n => (Ok tt, <[name := VInt n]> values)
      | Raise e => (Raise e, values)
      | Diverge => (Diverge, values)
      end
  end.

(** The composition the entry point is described as: resolve the two
    levels, overwriting them; validate the arguments; return the values with
    the source and the destination.  The first failure is the result. *)
Definition finalize (values : gmap string value) (args : list value)
    : result (gmap string value * value * value) * (gmap string value * list value) :=
  match resolve_field "report_level" values with
  | (Ok _, values1) =>
      match resolve_field "halt_level" values1 with
      | (Ok _, values2) =>
          match OptionParser.check_args args with
          | (Ok (source, destination), args') =>
              (Ok (values2, source, destination), (values2, args'))
          | (Raise e, args') => (Raise e, (values2, args'))
          | (Diverge, args') => (Diverge, (values2, args'))
          end
      | (Raise e, values2) => (Raise e, (values2, args))
      | (Diverge, values2) => (Diverge, (values2, args))
      end
  | (Raise e, values1) => (Raise e, (values1, args))
  | (Diverge, values1) => (Diverge, (values1, args))
  end.

(** *** The built-in options *)

(** The entries of the one group of the parser's own specification. *)
Definition builtin_entries : list entry :=
  match OptionParser.cmdline_options with
  | [_; _; Entries es] => es
  | _ => []
  end.

Definition has_dest (dest : string) (e : entry) : bool :=
  match kwargs e !! "dest" with
  | Some (VStr d) => String.eqb d dest
  | _ => false
  end.

(** The defaults that the built-in entries give to a destination. *)
Definition builtin_defaults (dest : string) : list value :=
  omap (fun e => kwargs e !! "default") (filter (fun e => has_dest dest e = true) builtin_entries).

(** *** Merging *)

(** The flag definition that registering an entry makes. *)
Definition option_of (e : entry) : optik.Option :=
  optik.MakeOption (option_strings e) (help_text e) (kwargs e).

(** The entries that the third element of a triple holds. *)
Definition entries_of (option_spec : item) : list entry :=
  match OptionParser.iterate option_spec with
  | Ok es => es
  | _ => []
  end.

(** The entries of a specification, triple after triple. *)
Fixpoint spec_entries (l : list item) : list entry :=
  match l with
  | _ :: _ :: option_spec :: rest => entries_of option_spec ++ spec_entries rest
  | _ => []
  end.

(** The entries of the triples of a specification that have no title. *)
Fixpoint spec_ungrouped (l : list item) : list entry :=
  match l with
  | title :: _ :: option_spec :: rest =>
      (if item_truth title then [] else entries_of option_spec) ++ spec_ungrouped rest
  | _ => []
  end.

(** The sections of a specification: one for each triple with a title. *)
Fixpoint spec_sections (l : list item) : list optik.OptionGroup :=
  match l with
  | title :: description :: option_spec :: rest =>
      (if item_truth title
       then [optik.MakeGroup title description (map option_of (entries_of option_spec))]
       else [])
      ++ spec_sections rest
  | _ => []
  end.

Definition component_spec (c : option Component.t) : list item :=
  match c with
  | Some c => Component.cmdline_options c
  | None => []
  end.

Definition component_entries (c : option Component.t) : list entry :=
  spec_entries (component_spec c).

Definition component_ungrouped (c : option Component.t) : list entry :=
  spec_ungrouped (component_spec c).

Definition component_sections (c : option Component.t) : list optik.OptionGroup :=
  spec_sections (component_spec c).

(** A section with more flag definitions at its end. *)
Definition extend_group (os : list optik.Option) (g : optik.OptionGroup)
    : optik.OptionGroup :=
  optik.MakeGroup (optik.title g) (optik.description g) (optik.group_option_list g ++ os).

(** The parser after the flag definitions [os] have been registered, in
    order, into the container [c]. *)
Definition add_all (c : optik.container) (os : list optik.Option)
    (p : optik.OptionParser) : optik.OptionParser :=
  optik.MakeParser (optik.version p)
    (match c with
     | optik.Self => optik.option_list p ++ os
     | optik.Group _ => optik.option_list p
     end)
    (match c with
     | optik.Self => optik.option_groups p
     | optik.Group i => alter (extend_group os) i (optik.option_groups p)
     end)
    (optik.registered p ++ os).

(** The parser after a triple has been merged whose flag definitions [os]
    have been registered: a new section at the end when there is a title, the
    shared top-level bucket extended when there is none. *)
Definition merge_triple (title description : item) (os : list optik.Option)
    (p : optik.OptionParser) : optik.OptionParser :=
  if item_truth title
  then optik.MakeParser (optik.version p) (optik.option_list p)
         (optik.option_groups p ++ [optik.MakeGroup title description os])
         (optik.registered p ++ os)
  else optik.MakeParser (optik.version p) (optik.option_list p ++ os)
         (optik.option_groups p) (optik.registered p ++ os).

(** The parser after the entries [es], the ungrouped entries [us] and the
    sections [gs] of some triples have been merged. *)
Definition merged (es us : list entry) (gs : list optik.OptionGroup)
    (p : optik.OptionParser) : optik.OptionParser :=
  optik.MakeParser (optik.version p)
    (optik.option_list p ++ map option_of us)
    (optik.option_groups p ++ gs)
    (optik.registered p ++ map option_of es).

(** The loop over a specification, by recursion on the triples of the
    specification instead of an index into it. *)
Fixpoint populate_items (l : list item) : M optik.OptionParser unit :=
  match l with
  | [] => ret tt
  | title :: description :: option_spec :: rest =>
      (OptionParser.populate_triple title description option_spec ;;;
       populate_items rest)%py
  | _ => raise ValueError
  end.

Definition no_help_key (e : entry) : bool :=
  match kwargs e !! "help" with None => true | Some _ => false end.

(** A specification made of triples whose third element is a tuple of
    entries, none of which has a [help] key among its keyword arguments. *)
Fixpoint well_formed_spec (l : list item) : bool :=
  match l with
  | [] => true
  | _ :: _ :: Entries es :: rest =>
      forallb no_help_key es && well_formed_spec rest
  | _ => false
  end.

(** No entry of [es] has an option string that is in [seen] or that an
    entry before it has. *)
Fixpoint no_collision (seen : list string) (es : list entry) : bool :=
  match es with
  | [] => true
  | e :: es' =>
      forallb (fun s => negb (bool_decide (s ∈ seen))) (option_strings e)
      && no_collision (seen ++ option_strings e) es'
  end.

(** Components that merge: well-formed specifications, and no option
    string shared by two entries, the built-in ones included. *)
Definition mergeable (components : list (option Component.t)) : bool :=
  forallb (fun c => well_formed_spec (component_spec c)) components
  && no_collision []
       (concat (map component_entries (components ++ [Some OptionParser.self_component]))).

(** The section that the parser's own specification makes. *)
Definition builtin_section : optik.OptionGroup :=
  optik.MakeGroup (Atom (VStr "General Docutils Options")) (Atom VNone)
    (map option_of builtin_entries).

(** *** Canonical keys, command-line thresholds *)

(** A character that normalisation leaves as it is: no uppercase letter
    and no dash. *)
Definition canonical_char (c : ascii) : bool :=
  negb (isupper c) && negb (Ascii.eqb c "-").

Fixpoint canonical (s : string) : bool :=
  match s with
  | EmptyString => true
  | String c s' => canonical_char c && canonical s'
  end.

(** A threshold as the command line leaves it in [values]: an integer (the
    defaults are integers) or one of the strings of [threshold_choices]. *)
Definition cmdline_threshold (v : value) : bool :=
  match v with
  | VInt _ => true
  | VStr s => bool_decide (s ∈ OptionParser.threshold_choices)
  | _ => false
  end.

(** The entries of the components and of the parser itself, in the order
    of merging. *)
Definition all_entries (components : list (option Component.t)) : list entry :=
  concat (map component_entries (components ++ [Some OptionParser.self_component])).

Definition all_well_formed (components : list (option Component.t)) : bool :=
  forallb (fun c => well_formed_spec (component_spec c)) components.

(** [p'] holds what [p] holds, in the same order, and possibly more after
    it: the same version, and the top-level bucket, the sections and the
    registered flag definitions of [p] at the front of those of [p']. *)
Definition extends (p p' : optik.OptionParser) : Prop :=
  optik.version p' = optik.version p
  /\ (exists us, optik.option_list p' = optik.option_list p ++ us)
  /\ (exists gs, optik.option_groups p' = optik.option_groups p ++ gs)
  /\ (exists os, optik.registered p' = optik.registered p ++ os).

(** ** Strings *)

Lemma map_string_map_string (f g : ascii -> ascii) (s : string) :
  map_string f (map_string g s) = map_string (fun c => f (g c)) s.
Proof. induction s as [|c s IH]; simpl; [reflexivity | now rewrite IH]. Qed.

Lemma map_string_ext (f g : ascii -> ascii) (s : string) :
  (forall c, f c = g c) -> map_string f s = map_string g s.
Proof. intros E. induction s as [|c s IH]; simpl; [reflexivity | now rewrite E, IH]. Qed.

Lemma map_string_length (f : ascii -> ascii) (s : string) :
  String.length (map_string f s) = String.length s.
Proof. induction s as [|c s IH]; simpl; [reflexivity | now rewrite IH]. Qed.

Lemma string_mem_map_string (f : ascii -> ascii) (c : ascii) (s : string) :
  (forall d, Ascii.eqb c (f d) = false) -> string_mem c (map_string f s) = false.
Proof. intros E. induction s as [|d s IH]; simpl; [reflexivity | now rewrite E]. Qed.

(** Replacing a one-character pattern is a character-wise substitution. *)
Lemma replace_dash (s : string) :
  replace "-" "_" s = map_string dash_to_underscore s.
Proof.
  unfold replace. induction s as [|c s IH]; [reflexivity|].
  cbn [replace_from map_string String.prefix String.length Nat.pred].
  unfold dash_to_underscore at 1.
  destruct (ascii_dec "-" c) as [<-|Hne].
  - rewrite <- IH. now destruct s.
  - destruct (Ascii.eqb_spec c "-") as [->|_]; [congruence|].
    now rewrite <- IH.
Qed.

Lemma normalize_char_idempotent (c : ascii) :
  normalize_char (normalize_char c) = normalize_char c.
Proof. destruct c as [[] [] [] [] [] [] [] []]; reflexivity. Qed.

Lemma normalize_char_not_dash (c : ascii) :
  Ascii.eqb "-" (normalize_char c) = false.
Proof. destruct c as [[] [] [] [] [] [] [] []]; reflexivity. Qed.

Lemma optionxform_map (key : string) :
  ConfigParser.optionxform key = map_string normalize_char key.
Proof.
  unfold ConfigParser.optionxform, lower.
  rewrite replace_dash, map_string_map_string. reflexivity.
Qed.

(** C8.  The configuration-key normaliser is a total function on strings:
    it returns the lowercase form of the key with every dash replaced by an
    underscore, that is, it maps every character of the key to its lowercase
    form, or to an underscore when that is a dash; the result has the length
    of the key and holds no dash; "Report-Level" and "REPORT_LEVEL" both
    become "report_level"; and normalising twice is normalising once. *)
Theorem optionxform_normalizes :
  (forall key, ConfigParser.optionxform key = replace "-" "_" (lower key))
  /\ (forall key, ConfigParser.optionxform key = map_string normalize_char key)
  /\ (forall key, String.length (ConfigParser.optionxform key) = String.length key)
  /\ (forall key, string_mem "-" (ConfigParser.optionxform key) = false)
  /\ ConfigParser.optionxform "Report-Level" = "report_level"
  /\ ConfigParser.optionxform "REPORT_LEVEL" = "report_level"
  /\ (forall x, ConfigParser.optionxform (ConfigParser.optionxform x)
               = ConfigParser.optionxform x).
Proof.
  repeat split; try reflexivity.
  - apply optionxform_map.
  - intros key. rewrite optionxform_map. apply map_string_length.
  - intros key. rewrite optionxform_map.
    apply string_mem_map_string, normalize_char_not_dash.
  - intros x. rewrite !optionxform_map, map_string_map_string.
    apply map_string_ext, normalize_char_idempotent.
Qed.

(** ** The threshold resolver *)

Lemma thresholds_table (k : string) (n : Z) :
  OptionParser.thresholds !! k = Some n <->
  (k, n) ∈ [("info", 1); ("warning", 2); ("error", 3); ("severe", 4); ("none", 5)].
Proof.
  unfold OptionParser.thresholds. split.
  - intros H.
    repeat (apply lookup_insert_Some in H as [[<- <-]|[_ H]]; [set_solver|]).
    apply lookup_singleton_Some in H as [<- <-]. set_solver.
  - intros H. repeat (apply elem_of_cons in H as [[= -> ->]|H]; [reflexivity|]).
    set_solver.
Qed.

(** The three ways the resolver can go on a string. *)
Lemma check_threshold_str (s : string) :
  OptionParser.check_threshold (VStr s) =
  match int_of_str s with
  | Some n => Ok n
  | None =>
      match OptionParser.thresholds !! lower s with
      | Some n => Ok n
      | None => Raise (OptionError ("Unknown threshold: " +:+ repr_str s +:+ "."))
      end
  end.
Proof.
  unfold OptionParser.check_threshold, int, lower_method, getitem; cbn.
  destruct (int_of_str s); cbn; [reflexivity|].
  destruct (OptionParser.thresholds !! lower s); reflexivity.
Qed.

(** The resolver reports an unknown threshold for strings only: [None]
    and lists are refused by [int] with a [TypeError] that is not caught. *)
Lemma check_threshold_error_on_string (level : value) (msg : string) :
  OptionParser.check_threshold level = Raise (OptionError msg) ->
  exists s, level = VStr s.
Proof. destruct level as [|n|s|l]; try discriminate. now exists s. Qed.

(** Reading the digits that [pretty] wrote. *)
Lemma read_digits_pretty_N_go (x : N) :
  (0 < x)%N ->
  exists k : Z, 0 <= k /\ forall acc seen s,
    read_digits acc seen (pretty_N_go x s) = read_digits (acc * 10 ^ k + Z.of_N x) true s.
Proof.
  induction (N.lt_wf_0 x) as [x _ IH]; intros Hx.
  assert (Hd : isdigit (pretty_N_char (x `mod` 10)%N) = true
               /\ digit_value (pretty_N_char (x `mod` 10)%N) = Z.of_N (x `mod` 10)%N).
  { assert (Hm : (x `mod` 10 < 10)%N) by (apply N.mod_lt; lia).
    destruct (x `mod` 10)%N as [|p] eqn:E; [split; reflexivity|].
    assert (Hp : (p < 10)%positive) by lia.
    do 10 (destruct p as [p|p|]; try (split; reflexivity); try lia). }
  destruct Hd as [Hd1 Hd2].
  destruct (decide (x `div` 10 = 0)%N) as [Hz|Hnz].
  - exists 1. split; [lia|]. intros acc seen s.
    rewrite pretty_N_go_step, Hz, pretty_N_go_0 by done.
    cbn [read_digits]. rewrite Hd1, Hd2. f_equal.
    pose proof (N.div_mod x 10) as Hdm. rewrite Hz in Hdm. lia.
  - destruct (IH (x `div` 10)%N) as (k & Hk & IHk).
    { apply N.div_lt; lia. }
    { now apply N.neq_0_lt_0. }
    exists (k + 1). split; [lia|]. intros acc seen s.
    rewrite pretty_N_go_step, IHk by done.
    cbn [read_digits]. rewrite Hd1, Hd2. f_equal.
    rewrite Z.pow_add_r by lia.
    pose proof (N.div_mod x 10) as Hdm. lia.
Qed.

Lemma pretty_N_go_head (x : N) (s : string) :
  (0 < x)%N -> exists c r, pretty_N_go x s = String c r /\ isdigit c = true.
Proof.
  revert s. induction (N.lt_wf_0 x) as [x _ IH]; intros s Hx.
  rewrite pretty_N_go_step by done.
  destruct (decide (x `div` 10 = 0)%N) as [Hz|Hnz].
  - rewrite Hz, pretty_N_go_0. eexists _, _. split; [reflexivity|].
    assert (Hm : (x `mod` 10 < 10)%N) by (apply N.mod_lt; lia).
    destruct (x `mod` 10)%N as [|p]; [reflexivity|].
    do 10 (destruct p as [p|p|]; try reflexivity; try lia).
  - apply IH; [apply N.div_lt; lia | now apply N.neq_0_lt_0].
Qed.

Lemma int_of_str_digits (c : ascii) (r : string) (n : Z) :
  isdigit c = true ->
  read_digits 0 false (String c r) = (n, true, EmptyString) ->
  int_of_str (String c r) = Some n /\ int_of_str (String "-" (String c r)) = Some (- n).
Proof.
  intros Hc Hr.
  assert (Hs : isspace c = false /\ c <> "+"%char /\ c <> "-"%char).
  { destruct c as [[] [] [] [] [] [] [] []]; try discriminate Hc; repeat split; discriminate. }
  destruct Hs as (Hs & Hp & Hm).
  assert (Hskip : skip_space (String c r) = String c r) by (cbn; now rewrite Hs).
  split.
  - unfold int_of_str. rewrite Hskip.
    assert (E : match String c r with
                | String "+" r0 => (false, r0)
                | String "-" r0 => (true, r0)
                | _ => (false, String c r)
                end = (false, String c r)).
    { destruct c as [[] [] [] [] [] [] [] []]; try reflexivity; congruence. }
    rewrite E, Hskip, Hr. reflexivity.
  - unfold int_of_str. cbn [skip_space]. change (isspace "-") with false. cbv iota.
    rewrite Hskip, Hr. reflexivity.
Qed.

(** Every integer, written in decimal, is read back as itself. *)
Lemma int_of_str_pretty (n : Z) : int_of_str (pretty n) = Some n.
Proof.
  assert (HN : forall p : positive,
             int_of_str (pretty (Npos p)) = Some (Zpos p)
             /\ int_of_str (String "-" (pretty (Npos p))) = Some (Zneg p)).
  { intros p. unfold pretty, pretty_N. rewrite decide_False by discriminate.
    destruct (pretty_N_go_head (Npos p) EmptyString) as (c & r & E & Hc); [lia|].
    destruct (read_digits_pretty_N_go (Npos p)) as (k & _ & Hk); [lia|].
    specialize (Hk 0 false EmptyString). rewrite E in *.
    apply (int_of_str_digits c r (Zpos p) Hc). rewrite Hk. cbn [read_digits].
    do 2 f_equal; lia. }
  destruct n as [|p|p]; [reflexivity|apply HN|apply HN].
Qed.

(** C2.  For every string that parses as an integer the resolver returns
    that integer, whatever its range and whether or not the string is one of
    the ten choices of the command line: every integer written in decimal
    resolves to itself, and in particular "3", "0" and "99" resolve to 3, 0
    and 99, of which "0" and "99" are no choice of the command line. *)
Theorem check_threshold_integer_string :
  (forall s n, int_of_str s = Some n -> OptionParser.check_threshold (VStr s) = Ok n)
  /\ (forall n : Z, OptionParser.check_threshold (VStr (pretty n)) = Ok n)
  /\ OptionParser.check_threshold (VStr "3") = Ok 3
  /\ OptionParser.check_threshold (VStr "0") = Ok 0
  /\ OptionParser.check_threshold (VStr "99") = Ok 99
  /\ ("0" ∉ OptionParser.threshold_choices)
  /\ ("99" ∉ OptionParser.threshold_choices).
Proof.
  assert (H : forall s n, int_of_str s = Some n ->
                          OptionParser.check_threshold (VStr s) = Ok n).
  { intros s n E. now rewrite check_threshold_str, E. }
  repeat split; try reflexivity.
  - exact H.
  - intros n. apply H, int_of_str_pretty.
  - vm_compute. intros Hin. repeat (apply elem_of_cons in Hin as [Hin|Hin]; [discriminate|]).
    inversion Hin.
  - vm_compute. intros Hin. repeat (apply elem_of_cons in Hin as [Hin|Hin]; [discriminate|]).
    inversion Hin.
Qed.

Lemma check_threshold_integer_string_witness :
  int_of_str " -12 " = Some (-12)
  /\ OptionParser.check_threshold (VStr " -12 ") = Ok (-12).
Proof.
  split; [reflexivity|].
  apply (proj1 check_threshold_integer_string " -12 " (-12)). reflexivity.
Defined.

(** C3.  For every string that does not parse as an integer and whose
    lowercase form is a key of the table of thresholds, the resolver returns
    the ordinal the table maps it to; the table is info 1, warning 2, error 3,
    severe 4, none 5; the look-up ignores case: "WARNING" and "warning"
    resolve to 2 and "none" to 5. *)
Theorem check_threshold_name :
  (forall s n, int_of_str s = None -> OptionParser.thresholds !! lower s = Some n ->
               OptionParser.check_threshold (VStr s) = Ok n)
  /\ (forall k n, OptionParser.thresholds !! k = Some n <->
        (k, n) ∈ [("info", 1); ("warning", 2); ("error", 3); ("severe", 4); ("none", 5)])
  /\ OptionParser.check_threshold (VStr "WARNING") = Ok 2
  /\ OptionParser.check_threshold (VStr "warning") = Ok 2
  /\ OptionParser.check_threshold (VStr "none") = Ok 5.
Proof.
  repeat split; try reflexivity; try apply thresholds_table.
  intros s n E1 E2. now rewrite check_threshold_str, E1, E2.
Qed.

Lemma check_threshold_name_witness :
  OptionParser.check_threshold (VStr "SeVeRe") = Ok 4.
Proof.
  apply (proj1 check_threshold_name "SeVeRe" 4); reflexivity.
Defined.

(** C4, as the specification states it, fails: the message of the failure
    is not "Unknown threshold: " followed by the string.  On "bogus", which
    neither parses nor names a threshold, the message holds the string
    between quotes and ends with a full stop. *)
Lemma check_threshold_message_counterexample :
  int_of_str "bogus" = None
  /\ OptionParser.thresholds !! lower "bogus" = None
  /\ OptionParser.check_threshold (VStr "bogus")
     = Raise (OptionError "Unknown threshold: 'bogus'.")
  /\ OptionParser.check_threshold (VStr "bogus")
     <> Raise (OptionError ("Unknown threshold: " +:+ "bogus")).
Proof. repeat split; try reflexivity. discriminate. Qed.

(** C4, amended.  For every string that neither parses as an integer nor,
    in lowercase, is a key of the table of thresholds, the resolver fails
    with the message made of "Unknown threshold: ", the [repr] of the string
    and a full stop; and on a string it fails in no other case and in no other
    way. *)
Theorem check_threshold_unknown (s : string) :
  (int_of_str s = None /\ OptionParser.thresholds !! lower s = None ->
   OptionParser.check_threshold (VStr s)
   = Raise (OptionError ("Unknown threshold: " +:+ repr_str s +:+ ".")))
  /\ (forall e, OptionParser.check_threshold (VStr s) = Raise e ->
        int_of_str s = None /\ OptionParser.thresholds !! lower s = None
        /\ e = OptionError ("Unknown threshold: " +:+ repr_str s +:+ "."))
  /\ OptionParser.check_threshold (VStr s) <> Diverge.
Proof.
  rewrite check_threshold_str.
  destruct (int_of_str s) as [n|]; [|destruct (OptionParser.thresholds !! lower s) as [n|]].
  - repeat split; try discriminate. intros [? _]; discriminate.
  - repeat split; try discriminate. intros [_ ?]; discriminate.
  - repeat split; try discriminate; congruence.
Qed.

Lemma check_threshold_unknown_witness :
  OptionParser.check_threshold (VStr "it's")
  = Raise (OptionError ("Unknown threshold: " +:+ String dquote ("it's" +:+ String dquote ".")))
  /\ OptionParser.check_threshold (VStr "bogus")
     = Raise (OptionError "Unknown threshold: 'bogus'.").
Proof.
  split.
  - apply (proj1 (check_threshold_unknown "it's")). split; reflexivity.
  - apply (proj1 (check_threshold_unknown "bogus")). split; reflexivity.
Defined.

(** ** The validator of positional arguments *)

(** C5.  The validator classifies its input four ways: no argument gives
    (None, None); one argument gives (it, None); two arguments give both;
    more than two fail with the message "Maximum 2 arguments allowed.".  The
    list is consumed: it is left empty, or, on failure, with what follows the
    first two arguments. *)
Theorem check_args_classification :
  OptionParser.check_args [] = (Ok (VNone, VNone), [])
  /\ (forall a, OptionParser.check_args [a] = (Ok (a, VNone), []))
  /\ (forall a b, OptionParser.check_args [a; b] = (Ok (a, b), []))
  /\ (forall a b c rest,
        OptionParser.check_args (a :: b :: c :: rest)
        = (Raise (OptionError "Maximum 2 arguments allowed."), c :: rest))
  /\ OptionParser.check_args [VStr "a"] = (Ok (VStr "a", VNone), [])
  /\ OptionParser.check_args [VStr "a"; VStr "b"] = (Ok (VStr "a", VStr "b"), [])
  /\ fst (OptionParser.check_args [VStr "a"; VStr "b"; VStr "c"])
     = Raise (OptionError "Maximum 2 arguments allowed.").
Proof. repeat split; reflexivity. Qed.

(** ** The post-parse entry point *)

Lemma check_values_finalize (values : gmap string value) (args : list value) :
  OptionParser.check_values (values, args) = finalize values args.
Proof.
  unfold OptionParser.check_values, finalize, resolve_field, bind, on_fst, on_snd,
    lift, ret, get, OptionParser.getattr, OptionParser.setattr, modify.
  cbn -[OptionParser.check_args OptionParser.check_threshold].
  destruct (values !! "report_level") as [rl|]; [|reflexivity].
  destruct (OptionParser.check_threshold rl) as [r|e|]; try reflexivity.
  cbn -[OptionParser.check_args OptionParser.check_threshold].
  destruct (<["report_level":=VInt r]> values !! "halt_level") as [hl|]; [|reflexivity].
  destruct (OptionParser.check_threshold hl) as [h|e|]; try reflexivity.
  cbn -[OptionParser.check_args OptionParser.check_threshold].
  destruct (OptionParser.check_args args) as [[[s d]|e|] args']; reflexivity.
Qed.

Lemma check_args_never_diverges (args : list value) :
  fst (OptionParser.check_args args) <> Diverge.
Proof. destruct args as [|a [|b [|c rest]]]; discriminate. Qed.

(** C9.  The post-parse entry point is the composition of its three steps:
    it resolves [report_level] and then [halt_level] through the threshold
    resolver and overwrites each of them in the [values] object; it validates
    the arguments; it returns the [values] object with the source and the
    destination.  When the three steps succeed the result is the overwritten
    object and the pair of the validator; a failure of the resolver on either
    level or of the validator is the result of the entry point. *)
Theorem check_values_composition (values : gmap string value) (args : list value) :
  OptionParser.check_values (values, args) = finalize values args
  /\ (forall rl hl r h source destination args',
        values !! "report_level" = Some rl ->
        values !! "halt_level" = Some hl ->
        OptionParser.check_threshold rl = Ok r ->
        OptionParser.check_threshold hl = Ok h ->
        OptionParser.check_args args = (Ok (source, destination), args') ->
        let values' := <["halt_level" := VInt h]> (<["report_level" := VInt r]> values) in
        OptionParser.check_values (values, args)
        = (Ok (values', source, destination), (values', args')))
  /\ (forall rl e,
        values !! "report_level" = Some rl ->
        OptionParser.check_threshold rl = Raise e ->
        OptionParser.check_values (values, args) = (Raise e, (values, args)))
  /\ (forall rl hl r e,
        values !! "report_level" = Some rl ->
        values !! "halt_level" = Some hl ->
        OptionParser.check_threshold rl = Ok r ->
        OptionParser.check_threshold hl = Raise e ->
        OptionParser.check_values (values, args)
        = (Raise e, (<["report_level" := VInt r]> values, args)))
  /\ (forall rl hl r h e args',
        values !! "report_level" = Some rl ->
        values !! "halt_level" = Some hl ->
        OptionParser.check_threshold rl = Ok r ->
        OptionParser.check_threshold hl = Ok h ->
        OptionParser.check_args args = (Raise e, args') ->
        fst (OptionParser.check_values (values, args)) = Raise e).
Proof.
  split; [apply check_values_finalize|].
  rewrite check_values_finalize. unfold finalize, resolve_field.
  repeat split.
  - intros rl hl r h s d args' E1 E2 E3 E4 E5.
    rewrite E1, E3. rewrite lookup_insert_ne by discriminate.
    now rewrite E2, E4, E5.
  - intros rl e E1 E2. now rewrite E1, E2.
  - intros rl hl r e E1 E2 E3 E4.
    rewrite E1, E3. rewrite lookup_insert_ne by discriminate.
    now rewrite E2, E4.
  - intros rl hl r h e args' E1 E2 E3 E4 E5.
    rewrite E1, E3. rewrite lookup_insert_ne by discriminate.
    now rewrite E2, E4, E5.
Qed.

Lemma check_values_composition_witness :
  let values : gmap string value :=
    {[ "report_level" := VStr "info"; "halt_level" := VStr "5" ]} in
  OptionParser.check_values (values, [VStr "in.txt"])
  = (Ok (<["halt_level" := VInt 5]> (<["report_level" := VInt 1]> values),
         VStr "in.txt", VNone),
     (<["halt_level" := VInt 5]> (<["report_level" := VInt 1]> values), [])).
Proof.
  intros values.
  apply (proj1 (proj2 (check_values_composition values [VStr "in.txt"]))
           (VStr "info") (VStr "5") 1 5 (VStr "in.txt") VNone []);
    reflexivity.
Defined.

(** ** Integers as thresholds *)

Lemma check_threshold_int (n : Z) : OptionParser.check_threshold (VInt n) = Ok n.
Proof. reflexivity. Qed.

(** C10.  The resolver returns an integer as it is; hence resolving a
    resolved value changes nothing; the defaults that the built-in options
    give to [report_level] and [halt_level] are the integers 2 and 4; and
    the entry point leaves a [values] object that holds them as it is: with
    at most two arguments it returns that very object. *)
Theorem check_threshold_idempotent :
  (forall n, OptionParser.check_threshold (VInt n) = Ok n)
  /\ (forall x n, OptionParser.check_threshold x = Ok n ->
        OptionParser.check_threshold (VInt n) = OptionParser.check_threshold x)
  /\ builtin_defaults "report_level" = [VInt 2]
  /\ builtin_defaults "halt_level" = [VInt 4]
  /\ (forall (values : gmap string value) args,
        values !! "report_level" = Some (VInt 2) ->
        values !! "halt_level" = Some (VInt 4) ->
        snd (OptionParser.check_values (values, args)) = (values, drop 2 args)
        /\ ((length args <= 2)%nat ->
            fst (OptionParser.check_values (values, args))
            = Ok (values, default VNone (args !! 0%nat), default VNone (args !! 1%nat)))).
Proof.
  split; [exact check_threshold_int|].
  split; [intros x n E; now rewrite E|].
  split; [reflexivity|]. split; [reflexivity|].
  intros values args E1 E2. rewrite check_values_finalize.
  unfold finalize, resolve_field. rewrite E1. cbn.
  rewrite lookup_insert_ne by discriminate. rewrite E2. cbn.
  rewrite (insert_id values "report_level" (VInt 2)) by exact E1.
  rewrite (insert_id values "halt_level" (VInt 4)) by exact E2.
  destruct args as [|a [|b [|c rest]]]; cbn; split; try reflexivity.
  intros H; cbn in H; lia.
Qed.

Lemma check_threshold_idempotent_witness :
  OptionParser.check_threshold (VInt 2) = OptionParser.check_threshold (VStr "WARNING")
  /\ (let values : gmap string value :=
        {[ "report_level" := VInt 2; "halt_level" := VInt 4 ]} in
      fst (OptionParser.check_values (values, [VStr "a"; VStr "b"]))
      = Ok (values, VStr "a", VStr "b")).
Proof.
  split.
  - apply (proj1 (proj2 check_threshold_idempotent) (VStr "WARNING") 2). reflexivity.
  - intros values.
    apply (proj2 (proj2 (proj2 (proj2 check_threshold_idempotent)))
             values [VStr "a"; VStr "b"]); [reflexivity|reflexivity|cbn; lia].
Defined.

(** ** Registering options *)

Lemma parser_eta (p : optik.OptionParser) :
  optik.MakeParser (optik.version p) (optik.option_list p) (optik.option_groups p)
    (optik.registered p) = p.
Proof. now destruct p. Qed.

Lemma extend_group_nil (g : optik.OptionGroup) : extend_group [] g = g.
Proof. destruct g. unfold extend_group; cbn. now rewrite app_nil_r. Qed.

Lemma extend_group_app (os1 os2 : list optik.Option) (g : optik.OptionGroup) :
  extend_group os2 (extend_group os1 g) = extend_group (os1 ++ os2) g.
Proof. unfold extend_group; cbn. now rewrite app_assoc. Qed.

Lemma add_all_nil (c : optik.container) (p : optik.OptionParser) : add_all c [] p = p.
Proof.
  destruct p as [v ol gs reg]. unfold add_all; cbn. rewrite !app_nil_r.
  destruct c as [|i]; [reflexivity|].
  now rewrite (list_alter_id _ gs i extend_group_nil).
Qed.

Lemma add_all_app (c : optik.container) (os1 os2 : list optik.Option)
    (p : optik.OptionParser) :
  add_all c os2 (add_all c os1 p) = add_all c (os1 ++ os2) p.
Proof.
  unfold add_all; cbn. rewrite !app_assoc. destruct c as [|i]; [reflexivity|].
  rewrite list_alter_alter_eq. f_equal.
  apply list_alter_ext; [|reflexivity]. intros g _. apply extend_group_app.
Qed.

(** One registration: it fails on the first option string that is already
    registered and then leaves the parser as it was, or it appends the flag
    definition to the container. *)
Lemma add_option_cases (c : optik.container) (strings : list string) (help : value)
    (attrs : gmap string value) (p : optik.OptionParser) :
  (exists s, s ∈ strings /\ s ∈ optik.registered_strings p
             /\ optik.add_option c strings help attrs p
                = (Raise (OptionConflictError s), p))
  \/ ((forall s, s ∈ strings -> s ∉ optik.registered_strings p)
      /\ optik.add_option c strings help attrs p
         = (Ok tt, add_all c [optik.MakeOption strings help attrs] p)).
Proof.
  unfold optik.add_option.
  destruct (find _ strings) as [s|] eqn:E.
  - left. exists s. apply find_some in E as [Hin Hb].
    apply bool_decide_eq_true in Hb. rewrite <- list_elem_of_In in Hin. auto.
  - right. split.
    + intros s Hin Hreg. rewrite list_elem_of_In in Hin.
      pose proof (find_none _ _ E s Hin) as Hb. cbn in Hb.
      now apply bool_decide_eq_false in Hb.
    + destruct c; reflexivity.
Qed.

Lemma call_add_option_cases (c : optik.container) (e : entry) (p : optik.OptionParser) :
  (exists x, OptionParser.call_add_option c e p = (Raise x, p))
  \/ (kwargs e !! "help" = None
      /\ (forall s, s ∈ option_strings e -> s ∉ optik.registered_strings p)
      /\ OptionParser.call_add_option c e p = (Ok tt, add_all c [option_of e] p)).
Proof.
  unfold OptionParser.call_add_option.
  destruct (kwargs e !! "help") as [v|] eqn:E; [left; now exists TypeError|].
  destruct (add_option_cases c (option_strings e) (help_text e) (kwargs e) p)
    as [(s & _ & _ & H)|[Hfresh H]].
  - left. eauto.
  - right. auto.
Qed.

(** Registering the entries of a triple: the entries before the first one
    that fails are registered, in order. *)
Lemma for_each_call_add_option (c : optik.container) (es : list entry)
    (p : optik.OptionParser) :
  exists es1 es2,
    es = es1 ++ es2
    /\ snd (OptionParser.for_each (OptionParser.call_add_option c) es p)
       = add_all c (map option_of es1) p
    /\ (fst (OptionParser.for_each (OptionParser.call_add_option c) es p) = Ok tt
        -> es2 = [])
    /\ fst (OptionParser.for_each (OptionParser.call_add_option c) es p) <> Diverge.
Proof.
  revert p. induction es as [|e es IH]; intros p.
  - exists [], []. cbn. rewrite add_all_nil. repeat split. discriminate.
  - cbn [OptionParser.for_each]. unfold bind.
    destruct (call_add_option_cases c e p) as [[x H]|(_ & _ & H)]; rewrite H.
    + exists [], (e :: es). cbn. rewrite add_all_nil. repeat split; discriminate.
    + destruct (IH (add_all c [option_of e] p)) as (es1 & es2 & -> & H1 & H2 & H3).
      exists (e :: es1), es2. rewrite H1, add_all_app. repeat split; assumption.
Qed.

(** ** Merging one triple *)

Lemma iterate_cases (option_spec : item) :
  OptionParser.iterate option_spec = Ok (entries_of option_spec)
  \/ (exists e, OptionParser.iterate option_spec = Raise e).
Proof.
  unfold entries_of.
  destruct (OptionParser.iterate option_spec) as [es|e|] eqn:E; eauto.
  exfalso. destruct option_spec as [[| |[|]|[|]]|]; cbn in E; try discriminate.
  destruct (_ =? _)%nat in E; discriminate.
Qed.

Lemma add_all_new_group (title description : item) (os : list optik.Option)
    (p : optik.OptionParser) :
  item_truth title = true ->
  add_all (optik.Group (length (optik.option_groups p))) os
    (optik.MakeParser (optik.version p) (optik.option_list p)
       (optik.option_groups p ++ [optik.new_group title description])
       (optik.registered p))
  = merge_triple title description os p.
Proof.
  intros Ht. unfold add_all, merge_triple; cbn. rewrite Ht. f_equal.
  rewrite <- (Nat.add_0_r (length (optik.option_groups p))) at 1.
  now rewrite alter_app_r.
Qed.

Lemma add_all_self (title description : item) (os : list optik.Option)
    (p : optik.OptionParser) :
  item_truth title = false ->
  add_all optik.Self os p = merge_triple title description os p.
Proof. intros Ht. unfold add_all, merge_triple. now rewrite Ht. Qed.

(** What merging one triple does to the parser, whether or not it
    succeeds: the flag definitions [os] of the entries that come before the
    first failure are registered, into a new section or into the top-level
    bucket; on success these are all the entries of the triple. *)
Lemma populate_triple_cases (title description option_spec : item)
    (p : optik.OptionParser) :
  exists os rest,
    map option_of (entries_of option_spec) = os ++ rest
    /\ snd (OptionParser.populate_triple title description option_spec p)
       = merge_triple title description os p
    /\ (fst (OptionParser.populate_triple title description option_spec p) = Ok tt
        -> rest = [])
    /\ fst (OptionParser.populate_triple title description option_spec p) <> Diverge.
Proof.
  assert (H : forall c p1,
    (forall os, add_all c os p1 = merge_triple title description os p) ->
    exists os rest,
      map option_of (entries_of option_spec) = os ++ rest
      /\ snd ((entries <- lift (OptionParser.iterate option_spec) ;;
               OptionParser.for_each (OptionParser.call_add_option c) entries)%py p1)
         = merge_triple title description os p
      /\ (fst ((entries <- lift (OptionParser.iterate option_spec) ;;
                OptionParser.for_each (OptionParser.call_add_option c) entries)%py p1) = Ok tt
          -> rest = [])
      /\ fst ((entries <- lift (OptionParser.iterate option_spec) ;;
               OptionParser.for_each (OptionParser.call_add_option c) entries)%py p1)
         <> Diverge).
  { intros c p1 Hc. unfold bind, lift.
    destruct (iterate_cases option_spec) as [E|[e E]]; rewrite E.
    - destruct (for_each_call_add_option c (entries_of option_spec) p1)
        as (es1 & es2 & Hes & H1 & H2 & H3).
      exists (map option_of es1), (map option_of es2).
      rewrite Hes at 1. rewrite map_app. rewrite H1, Hc.
      repeat split; [|assumption]. intros Hok. now rewrite (H2 Hok).
    - exists [], (map option_of (entries_of option_spec)). cbn.
      rewrite <- Hc, add_all_nil. repeat split; discriminate. }
  unfold OptionParser.populate_triple.
  destruct (item_truth title) eqn:Ht.
  - unfold bind at 1. unfold optik.add_option_group at 1.
    apply H. intros os. now apply add_all_new_group.
  - unfold bind at 1. unfold ret at 1.
    apply H. intros os. now apply add_all_self.
Qed.

Lemma merge_triple_merged (title description option_spec : item)
    (p : optik.OptionParser) :
  merge_triple title description (map option_of (entries_of option_spec)) p
  = merged (entries_of option_spec)
      (if item_truth title then [] else entries_of option_spec)
      (if item_truth title
       then [optik.MakeGroup title description (map option_of (entries_of option_spec))]
       else []) p.
Proof.
  unfold merge_triple, merged.
  destruct (item_truth title); cbn; now rewrite ?app_nil_r.
Qed.

Lemma merged_nil (p : optik.OptionParser) : merged [] [] [] p = p.
Proof. destruct p. unfold merged; cbn. now rewrite !app_nil_r. Qed.

Lemma merged_merged (es1 us1 es2 us2 : list entry) (gs1 gs2 : list optik.OptionGroup)
    (p : optik.OptionParser) :
  merged es2 us2 gs2 (merged es1 us1 gs1 p) = merged (es1 ++ es2) (us1 ++ us2) (gs1 ++ gs2) p.
Proof. unfold merged; cbn. now rewrite !map_app, !app_assoc. Qed.

(** ** Merging a specification *)

Lemma triples_ind (P : list item -> Prop) :
  P [] -> (forall a, P [a]) -> (forall a b, P [a; b]) ->
  (forall a b c rest, P rest -> P (a :: b :: c :: rest)) ->
  forall l, P l.
Proof.
  intros H0 H1 H2 H3 l.
  assert (H : forall n l, (length l <= n)%nat -> P l).
  { clear l. induction n as [|n IH]; intros l Hl.
    - destruct l; [exact H0|cbn in Hl; lia].
    - destruct l as [|a [|b [|c rest]]]; auto.
      apply H3, IH. cbn in Hl. lia. }
  exact (H (length l) l (le_n _)).
Qed.

(** The loop with its index is the recursion over the triples. *)
Lemma populate_loop_items (fuel : nat) (l : list item) :
  forall i p, (length l - i <= 3 * fuel)%nat ->
    OptionParser.populate_loop fuel l i p = populate_items (drop i l) p.
Proof.
  induction fuel as [|fuel IH]; intros i p Hfuel.
  - cbn [OptionParser.populate_loop].
    destruct (i <? length l)%nat eqn:Hi.
    + apply Nat.ltb_lt in Hi. lia.
    + apply Nat.ltb_ge in Hi. now rewrite drop_ge.
  - cbn [OptionParser.populate_loop].
    destruct (i <? length l)%nat eqn:Hi.
    + apply Nat.ltb_lt in Hi. unfold OptionParser.slice3.
      assert (Hd : drop (i + 3) l = drop 3 (drop i l)) by now rewrite drop_drop.
      destruct (drop i l) as [|a [|b [|c rest]]] eqn:E.
      * apply (f_equal length) in E. rewrite length_drop in E. cbn in E. lia.
      * reflexivity.
      * reflexivity.
      * change (take 3 (a :: b :: c :: rest)) with [a; b; c].
        cbn [OptionParser.unpack3 populate_items]. unfold bind, ret. cbn [fst snd].
        destruct (OptionParser.populate_triple a b c p) as [[[]|e|] p1]; try reflexivity.
        rewrite IH by lia. now rewrite Hd.
    + apply Nat.ltb_ge in Hi. now rewrite drop_ge.
Qed.

Lemma populate_component_items (c : option Component.t) (p : optik.OptionParser) :
  OptionParser.populate_component c p = populate_items (component_spec c) p.
Proof.
  destruct c as [c|]; [|reflexivity]. cbn.
  rewrite populate_loop_items by lia. reflexivity.
Qed.

(** The loop over a specification never exhausts its bound. *)
Lemma populate_items_never_diverges (l : list item) :
  forall p, fst (populate_items l p) <> Diverge.
Proof.
  induction l as [| | |a b c rest IH] using triples_ind; intros p; try discriminate.
  cbn [populate_items]. unfold bind.
  destruct (populate_triple_cases a b c p) as (os & r & _ & _ & _ & Hd).
  destruct (OptionParser.populate_triple a b c p) as [[[]|e|] p1]; cbn in *;
    [apply IH|discriminate|congruence].
Qed.

(** A specification that merges is made of whole triples, and leaves the
    parser with its entries, buckets and sections appended in order. *)
Lemma populate_items_ok (l : list item) :
  forall p p', populate_items l p = (Ok tt, p') ->
    (length l mod 3 = 0)%nat
    /\ p' = merged (spec_entries l) (spec_ungrouped l) (spec_sections l) p.
Proof.
  induction l as [| | |a b c rest IH] using triples_ind; intros p p' H;
    try discriminate.
  - injection H as <-. now rewrite merged_nil.
  - cbn [populate_items] in H. unfold bind in H.
    destruct (populate_triple_cases a b c p) as (os & r & Hos & Hp & Hok & _).
    destruct (OptionParser.populate_triple a b c p) as [[[]|e|] p1]; try discriminate.
    cbn in Hp, Hok. rewrite (Hok eq_refl), app_nil_r in Hos. subst os p1.
    destruct (IH _ _ H) as [Hlen ->]. split.
    + change (length (a :: b :: c :: rest)) with (3 + length rest)%nat.
      rewrite <- Nat.Div0.add_mod_idemp_r, Hlen. reflexivity.
    + rewrite merge_triple_merged, merged_merged. reflexivity.
Qed.

(** A specification whose length is no multiple of three does not merge:
    when its whole triples merge, the rest fails to unpack, after them. *)
Lemma populate_items_uneven (l1 l2 : list item) :
  (0 < length l2 < 3)%nat ->
  forall p p1, populate_items l1 p = (Ok tt, p1) ->
    populate_items (l1 ++ l2) p = (Raise ValueError, p1).
Proof.
  intros Hl2.
  induction l1 as [| | |a b c rest IH] using triples_ind; intros p p1 H;
    try discriminate.
  - injection H as <-. destruct l2 as [|x [|y [|z l2]]]; cbn in Hl2; try lia; reflexivity.
  - cbn [populate_items app] in *. unfold bind in *.
    destruct (OptionParser.populate_triple a b c p) as [[[]|e|] p2]; try discriminate.
    now apply IH.
Qed.

(** ** Merging components *)

Lemma populate_from_components_ok (components : list (option Component.t)) :
  forall p p',
    OptionParser.populate_from_components components p = (Ok tt, p') ->
    p' = merged (concat (map component_entries components))
           (concat (map component_ungrouped components))
           (concat (map component_sections components)) p.
Proof.
  unfold OptionParser.populate_from_components.
  induction components as [|c cs IH]; intros p p' H.
  - injection H as <-. now rewrite merged_nil.
  - cbn [OptionParser.for_each] in H. unfold bind in H.
    rewrite populate_component_items in H.
    destruct (populate_items (component_spec c) p) as [[[]|e|] p1] eqn:E;
      try discriminate.
    apply populate_items_ok in E as [_ ->].
    apply IH in H as ->. now rewrite merged_merged.
Qed.

Lemma populate_from_components_never_diverges (components : list (option Component.t)) :
  forall p, fst (OptionParser.populate_from_components components p) <> Diverge.
Proof.
  unfold OptionParser.populate_from_components.
  induction components as [|c cs IH]; intros p; [discriminate|].
  cbn [OptionParser.for_each]. unfold bind.
  rewrite populate_component_items.
  pose proof (populate_items_never_diverges (component_spec c) p) as Hd.
  destruct (populate_items (component_spec c) p) as [[[]|e|] p1]; cbn in *;
    [apply IH|discriminate|congruence].
Qed.

(** *** Sufficient conditions for merging to succeed *)

Lemma registered_strings_add_all (c : optik.container) (os : list optik.Option)
    (p : optik.OptionParser) :
  optik.registered_strings (add_all c os p)
  = optik.registered_strings p ++ concat (map optik.opt_strings os).
Proof. unfold optik.registered_strings, add_all; cbn. now rewrite map_app, concat_app. Qed.

Lemma registered_strings_merged (es us : list entry) (gs : list optik.OptionGroup)
    (p : optik.OptionParser) :
  optik.registered_strings (merged es us gs p)
  = optik.registered_strings p ++ concat (map option_strings es).
Proof.
  unfold optik.registered_strings, merged; cbn.
  rewrite map_app, concat_app, map_map. reflexivity.
Qed.

Lemma no_collision_app (seen : list string) (es1 es2 : list entry) :
  no_collision seen (es1 ++ es2)
  = no_collision seen es1 && no_collision (seen ++ concat (map option_strings es1)) es2.
Proof.
  revert seen. induction es1 as [|e es1 IH]; intros seen; cbn.
  - now rewrite app_nil_r.
  - rewrite IH, <- app_assoc, andb_assoc. reflexivity.
Qed.

Lemma for_each_call_add_option_ok (c : optik.container) (es : list entry) :
  forall p,
    forallb no_help_key es = true ->
    no_collision (optik.registered_strings p) es = true ->
    OptionParser.for_each (OptionParser.call_add_option c) es p
    = (Ok tt, add_all c (map option_of es) p).
Proof.
  induction es as [|e es IH]; intros p Hh Hc.
  - cbn. now rewrite add_all_nil.
  - cbn in Hh, Hc. apply andb_true_iff in Hh as [Hh1 Hh2].
    apply andb_true_iff in Hc as [Hc1 Hc2].
    cbn [OptionParser.for_each]. unfold bind, OptionParser.call_add_option.
    unfold no_help_key in Hh1. destruct (kwargs e !! "help"); [discriminate|].
    destruct (add_option_cases c (option_strings e) (help_text e) (kwargs e) p)
      as [(s & Hin & Hreg & _)|[_ ->]].
    + exfalso. rewrite forallb_forall in Hc1. rewrite list_elem_of_In in Hin.
      specialize (Hc1 s Hin). apply negb_true_iff, bool_decide_eq_false in Hc1. auto.
    + rewrite IH; [|assumption|].
      * now rewrite add_all_app.
      * now rewrite registered_strings_add_all; cbn; rewrite app_nil_r.
Qed.

Lemma populate_triple_ok (title description : item) (es : list entry)
    (p : optik.OptionParser) :
  forallb no_help_key es = true ->
  no_collision (optik.registered_strings p) es = true ->
  OptionParser.populate_triple title description (Entries es) p
  = (Ok tt, merge_triple title description (map option_of es) p).
Proof.
  intros Hh Hc. unfold OptionParser.populate_triple.
  destruct (item_truth title) eqn:Ht; unfold bind, optik.add_option_group, ret, lift; cbn.
  - rewrite for_each_call_add_option_ok by assumption.
    now rewrite add_all_new_group.
  - rewrite for_each_call_add_option_ok by assumption.
    now rewrite (add_all_self title description).
Qed.

Lemma populate_items_well_formed (l : list item) :
  forall p,
    well_formed_spec l = true ->
    no_collision (optik.registered_strings p) (spec_entries l) = true ->
    populate_items l p
    = (Ok tt, merged (spec_entries l) (spec_ungrouped l) (spec_sections l) p).
Proof.
  induction l as [| | |a b c rest IH] using triples_ind; intros p Hw Hc;
    try discriminate.
  - cbn. now rewrite merged_nil.
  - cbn in Hw. destruct c as [v|es]; [discriminate|].
    apply andb_true_iff in Hw as [Hw1 Hw2].
    change (spec_entries (a :: b :: Entries es :: rest)) with (es ++ spec_entries rest) in Hc.
    rewrite no_collision_app in Hc. apply andb_true_iff in Hc as [Hc1 Hc2].
    cbn [populate_items]. unfold bind.
    rewrite populate_triple_ok by assumption.
    change es with (entries_of (Entries es)) at 1.
    rewrite merge_triple_merged, IH.
    + now rewrite merged_merged.
    + assumption.
    + now rewrite registered_strings_merged.
Qed.

Lemma populate_from_components_well_formed (components : list (option Component.t)) :
  forall p,
    forallb (fun c => well_formed_spec (component_spec c)) components = true ->
    no_collision (optik.registered_strings p) (concat (map component_entries components))
    = true ->
    exists p', OptionParser.populate_from_components components p = (Ok tt, p').
Proof.
  unfold OptionParser.populate_from_components.
  induction components as [|c cs IH]; intros p Hw Hc; [now eexists|].
  cbn in Hw, Hc. apply andb_true_iff in Hw as [Hw1 Hw2].
  rewrite no_collision_app in Hc. apply andb_true_iff in Hc as [Hc1 Hc2].
  cbn [OptionParser.for_each]. unfold bind.
  rewrite populate_component_items, populate_items_well_formed by assumption.
  apply IH; [assumption|]. now rewrite registered_strings_merged.
Qed.

Lemma length_concat_map {A B} (f : A -> list B) (l : list A) :
  length (concat (map f l)) = sum_list_with (fun x => length (f x)) l.
Proof. induction l as [|x l IH]; cbn; [reflexivity|]. now rewrite length_app, IH. Qed.

(** C1.  Construction merges the components in order and the parser
    itself last.  Whenever it succeeds, the flag definitions registered in
    the parser are, in the order of their registration, those of the entries
    of the first component, then of the second, and so on ([None] among the
    components contributes nothing), each component giving the entries of its
    triples in the order of the triples and of the entries in them, followed
    by those of the built-in group; their number is the sum of the numbers of
    entries of the components plus the twenty built-in ones; the top-level
    bucket holds the entries of the triples without a title, in that order,
    and the sections are those of the triples with a title, in that order,
    followed by the built-in section.  Construction succeeds for components
    whose specifications are well formed and whose option strings do not
    collide, and it always terminates. *)
Theorem merge_preserves_order_and_count (docutils_version : string) (version : value)
    (components : list (option Component.t)) :
  (forall p,
     OptionParser.__init__ docutils_version version components = (Ok tt, p) ->
     optik.registered p
     = map option_of (concat (map component_entries components) ++ builtin_entries)
     /\ length (optik.registered p)
        = (sum_list_with (fun c => length (component_entries c)) components + 20)%nat
     /\ optik.option_list p = map option_of (concat (map component_ungrouped components))
     /\ optik.option_groups p
        = concat (map component_sections components) ++ [builtin_section])
  /\ component_entries None = []
  /\ (mergeable components = true ->
      exists p, OptionParser.__init__ docutils_version version components = (Ok tt, p))
  /\ fst (OptionParser.__init__ docutils_version version components) <> Diverge.
Proof.
  unfold OptionParser.__init__.
  set (self := if truth _ then _ else _).
  assert (Hself : optik.option_list self = [] /\ optik.option_groups self = []
                  /\ optik.registered self = []).
  { subst self. destruct (truth _); repeat split. }
  destruct Hself as (H1 & H2 & H3).
  assert (E1 : concat (map component_entries (components ++ [Some OptionParser.self_component]))
               = concat (map component_entries components) ++ builtin_entries).
  { rewrite map_app, concat_app. f_equal. }
  assert (E2 : concat (map component_ungrouped (components ++ [Some OptionParser.self_component]))
               = concat (map component_ungrouped components)).
  { rewrite map_app, concat_app. apply app_nil_r. }
  assert (E3 : concat (map component_sections (components ++ [Some OptionParser.self_component]))
               = concat (map component_sections components) ++ [builtin_section]).
  { rewrite map_app, concat_app. f_equal. }
  repeat split.
  - apply populate_from_components_ok in H as ->. cbn [merged optik.registered].
    now rewrite H3, E1.
  - apply populate_from_components_ok in H as ->. cbn [merged optik.registered].
    rewrite H3, E1, app_nil_l, length_map, length_app.
    now rewrite length_concat_map.
  - apply populate_from_components_ok in H as ->. cbn [merged optik.option_list].
    now rewrite H1, E2.
  - apply populate_from_components_ok in H as ->. cbn [merged optik.option_groups].
    now rewrite H2, E3.
  - intros Hm. unfold mergeable in Hm. apply andb_true_iff in Hm as [Hw Hc].
    apply populate_from_components_well_formed.
    + rewrite forallb_app, Hw. reflexivity.
    + unfold optik.registered_strings. now rewrite H3.
  - apply populate_from_components_never_diverges.
Qed.

Lemma merge_preserves_order_and_count_witness :
  let writer := Component.Make
    [ Atom (VStr "HTML-Specific Options"); Atom VNone;
      Entries [ Entry (VStr "Specify a stylesheet file.") ["--stylesheet"]
                  (OptionParser.kw [("metavar", VStr "<file>")]) ];
      Atom VNone; Atom VNone;
      Entries [ Entry (VStr "Be quiet.") ["--quiet"; "-q"]
                  (OptionParser.kw [("action", VStr "store_true")]) ] ] in
  exists p,
    OptionParser.__init__ "0.2" VNone [Some writer; None] = (Ok tt, p)
    /\ optik.registered p
       = map option_of (concat (map component_entries [Some writer; None]) ++ builtin_entries)
    /\ length (optik.registered p) = 22%nat.
Proof.
  intros writer.
  destruct (proj1 (proj2 (proj2
              (merge_preserves_order_and_count "0.2" VNone [Some writer; None]))))
    as [p Hp]; [reflexivity|].
  exists p. split; [exact Hp|].
  destruct (proj1 (merge_preserves_order_and_count "0.2" VNone [Some writer; None]) p Hp)
    as (Hr & Hl & _).
  split; [exact Hr | exact Hl].
Defined.

(** ** Sections *)

(** C7.  A triple whose title is not empty always makes a new section, at
    the end of the sections of the parser, with that title and that
    description, whatever the titles of the sections that exist, which are
    left as they are, as is the top-level bucket; a triple whose title is
    empty ([None] or the empty string) makes no section and its entries go to
    the top-level bucket.  When the triple merges, the new section, or the
    end of the top-level bucket, holds the entries of the triple in order.
    Two components that each declare a group titled "Foo" give two sections
    titled "Foo". *)
Theorem titled_triple_makes_new_section (title description option_spec : item)
    (p : optik.OptionParser) :
  let r := OptionParser.populate_triple title description option_spec p in
  (item_truth title = true ->
   exists g,
     optik.option_groups (snd r) = optik.option_groups p ++ [g]
     /\ optik.title g = title /\ optik.description g = description
     /\ optik.option_list (snd r) = optik.option_list p
     /\ (fst r = Ok tt ->
         optik.group_option_list g = map option_of (entries_of option_spec)))
  /\ (item_truth title = false ->
      optik.option_groups (snd r) = optik.option_groups p
      /\ (fst r = Ok tt ->
          optik.option_list (snd r)
          = optik.option_list p ++ map option_of (entries_of option_spec)))
  /\ (forall s, item_truth (Atom (VStr s)) = true <-> s <> EmptyString)
  /\ item_truth (Atom VNone) = false
  /\ (let foo1 := Component.Make
        [Atom (VStr "Foo"); Atom VNone; Entries [Entry (VStr "a") ["--a"] ∅]] in
      let foo2 := Component.Make
        [Atom (VStr "Foo"); Atom VNone; Entries [Entry (VStr "b") ["--b"] ∅]] in
      let q := OptionParser.populate_from_components [Some foo1; Some foo2]
                 (optik.new_parser VNone) in
      fst q = Ok tt
      /\ optik.option_groups (snd q)
         = [ optik.MakeGroup (Atom (VStr "Foo")) (Atom VNone)
               [optik.MakeOption ["--a"] (VStr "a") ∅];
             optik.MakeGroup (Atom (VStr "Foo")) (Atom VNone)
               [optik.MakeOption ["--b"] (VStr "b") ∅] ]).
Proof.
  intros r. subst r.
  destruct (populate_triple_cases title description option_spec p)
    as (os & rest & Hos & Hp & Hok & _).
  rewrite Hp. unfold merge_triple.
  split; [|split; [|split; [|split]]].
  - intros Ht. rewrite Ht. eexists. cbn. repeat split.
    intros Hr. rewrite Hos, (Hok Hr). now rewrite app_nil_r.
  - intros Ht. rewrite Ht. cbn. split; [reflexivity|].
    intros Hr. rewrite Hos, (Hok Hr). now rewrite app_nil_r.
  - intros s. destruct s; cbn; split; congruence.
  - reflexivity.
  - cbv zeta. split; reflexivity.
Qed.

Lemma titled_triple_makes_new_section_witness :
  let foo := optik.MakeGroup (Atom (VStr "Foo")) (Atom VNone) [] in
  let p := optik.MakeParser VNone [] [foo] [] in
  let e := Entry (VStr "b") ["--b"] ∅ in
  exists g,
    optik.option_groups
      (snd (OptionParser.populate_triple (Atom (VStr "Foo")) (Atom VNone) (Entries [e]) p))
    = [foo; g]
    /\ optik.title g = Atom (VStr "Foo")
    /\ optik.group_option_list g = [option_of e].
Proof.
  intros foo p e.
  destruct (proj1 (titled_triple_makes_new_section
                     (Atom (VStr "Foo")) (Atom VNone) (Entries [e]) p) eq_refl)
    as (g & Hg & Ht & _ & _ & Hl).
  exists g. split; [exact Hg|]. split; [exact Ht|]. apply Hl. reflexivity.
Defined.

(** ** Specifications that are not made of triples *)

(** C6, as the specification states it, fails.  A component whose
    specification has four elements does not have to fail on its arity: when
    two entries of its first triple share an option string, merging it fails
    on that collision.  And when merging fails on the arity, the triples
    before the incomplete one have been merged: the section "Foo" and its
    option are in the parser after the failure. *)
Lemma uneven_specification_counterexample :
  let e := Entry (VStr "a") ["-a"] ∅ in
  let c1 := Component.Make [Atom VNone; Atom VNone; Entries [e; e]; Atom (VStr "Bar")] in
  let c2 := Component.Make [Atom (VStr "Foo"); Atom VNone; Entries [e]; Atom (VStr "Bar")] in
  let p := optik.new_parser VNone in
  (length (Component.cmdline_options c1) mod 3 <> 0)%nat
  /\ fst (OptionParser.populate_component (Some c1) p) = Raise (OptionConflictError "-a")
  /\ fst (OptionParser.populate_component (Some c1) p) <> Raise ValueError
  /\ (length (Component.cmdline_options c2) mod 3 <> 0)%nat
  /\ OptionParser.populate_component (Some c2) p
     = (Raise ValueError,
        optik.MakeParser VNone []
          [optik.MakeGroup (Atom (VStr "Foo")) (Atom VNone) [option_of e]] [option_of e])
  /\ snd (OptionParser.populate_component (Some c2) p) <> p.
Proof. cbv zeta. repeat split; try reflexivity; discriminate. Qed.

(** A failure among whole triples is the failure of the specification
    they are the front of. *)
Lemma populate_items_leading_failure (l1 l2 : list item) :
  (length l1 mod 3 = 0)%nat ->
  forall p e p1, populate_items l1 p = (Raise e, p1) ->
    populate_items (l1 ++ l2) p = (Raise e, p1).
Proof.
  induction l1 as [| | |a b c rest IH] using triples_ind; intros Hlen p e p1 H;
    try discriminate.
  cbn [populate_items app] in *. unfold bind in *.
  destruct (OptionParser.populate_triple a b c p) as [[[]|e'|] p2]; try discriminate.
  - apply IH; [|exact H].
    change (length (a :: b :: c :: rest)) with (3 + length rest)%nat in Hlen.
    rewrite <- Nat.Div0.add_mod_idemp_l in Hlen. exact Hlen.
  - exact H.
Qed.

Lemma length_leading_triples (l : list item) :
  (length (take (length l - length l mod 3) l) mod 3 = 0)%nat
  /\ (length l mod 3 <> 0 ->
      0 < length (drop (length l - length l mod 3) l) < 3)%nat.
Proof.
  pose proof (Nat.div_mod_eq (length l) 3) as Hdm.
  pose proof (Nat.mod_upper_bound (length l) 3 ltac:(lia)) as Hb.
  split.
  - rewrite length_take_le by lia.
    replace (length l - length l mod 3)%nat with (length l / 3 * 3)%nat by lia.
    apply Nat.Div0.mod_mul.
  - intros Hne. rewrite length_drop. lia.
Qed.

(** C6, amended.  Merging a component whose specification has a length
    that is no multiple of three never succeeds: it ends with an exception.
    The whole triples at the front of the specification are merged first.
    When merging them fails, that failure (a collision of option strings, for
    one) is the exception reported and the parser is left as that failure
    left it.  When they all merge, the exception is the [ValueError] of
    unpacking the incomplete triple, and the parser is left as merging those
    triples left it. *)
Theorem uneven_specification_fails (c : Component.t) (p : optik.OptionParser) :
  let l := Component.cmdline_options c in
  (length l mod 3 <> 0)%nat ->
  (exists e, fst (OptionParser.populate_component (Some c) p) = Raise e)
  /\ (forall p1,
        OptionParser.populate_component
          (Some (Component.Make (take (length l - length l mod 3) l))) p = (Ok tt, p1) ->
        OptionParser.populate_component (Some c) p = (Raise ValueError, p1))
  /\ (forall e p1,
        OptionParser.populate_component
          (Some (Component.Make (take (length l - length l mod 3) l))) p = (Raise e, p1) ->
        OptionParser.populate_component (Some c) p = (Raise e, p1))
  /\ fst (OptionParser.populate_component
            (Some (Component.Make (take (length l - length l mod 3) l))) p) <> Diverge.
Proof.
  intros l Hl. rewrite !populate_component_items. cbn [component_spec]. fold l.
  cbn [Component.cmdline_options].
  destruct (length_leading_triples l) as [Htake Hdrop]. specialize (Hdrop Hl).
  split; [|split; [|split]].
  - pose proof (populate_items_never_diverges l p) as Hd.
    destruct (populate_items l p) as [[[]|e|] p1] eqn:E; cbn in *.
    + apply populate_items_ok in E as [E _]. contradiction.
    + now exists e.
    + congruence.
  - intros p1 H.
    rewrite <- (take_drop (length l - length l mod 3) l) at 1.
    apply populate_items_uneven; [exact Hdrop|exact H].
  - intros e p1 H.
    rewrite <- (take_drop (length l - length l mod 3) l) at 1.
    apply populate_items_leading_failure; [exact Htake|exact H].
  - apply populate_items_never_diverges.
Qed.

Lemma uneven_specification_fails_witness :
  let e := Entry (VStr "a") ["-a"] ∅ in
  let c := Component.Make [Atom (VStr "Foo"); Atom VNone; Entries [e]; Atom (VStr "Bar")] in
  let c' := Component.Make [Atom VNone; Atom VNone; Entries [e; e]; Atom (VStr "Bar")] in
  OptionParser.populate_component (Some c) (optik.new_parser VNone)
  = (Raise ValueError,
     optik.MakeParser VNone []
       [optik.MakeGroup (Atom (VStr "Foo")) (Atom VNone) [option_of e]] [option_of e])
  /\ OptionParser.populate_component (Some c') (optik.new_parser VNone)
     = (Raise (OptionConflictError "-a"),
        optik.MakeParser VNone [option_of e] [] [option_of e]).
Proof.
  intros e c c'. split.
  - apply (proj1 (proj2 (uneven_specification_fails c (optik.new_parser VNone)
                           ltac:(cbn; discriminate)))).
    reflexivity.
  - apply (proj1 (proj2 (proj2 (uneven_specification_fails c' (optik.new_parser VNone)
                                  ltac:(cbn; discriminate))))).
    reflexivity.
Defined.

(** ** Further properties of the threshold resolver *)

Lemma tolower_class (c : ascii) :
  isspace (tolower c) = isspace c
  /\ isdigit (tolower c) = isdigit c
  /\ (isdigit c = true -> tolower c = c)
  /\ tolower (tolower c) = tolower c.
Proof. destruct c as [[] [] [] [] [] [] [] []]; repeat split; discriminate. Qed.

Lemma lower_idempotent (s : string) : lower (lower s) = lower s.
Proof.
  unfold lower. rewrite map_string_map_string.
  apply map_string_ext. intros c. apply tolower_class.
Qed.

Lemma skip_space_lower (s : string) : skip_space (lower s) = lower (skip_space s).
Proof.
  induction s as [|c s IH]; [reflexivity|].
  change (lower (String c s)) with (String (tolower c) (lower s)).
  cbn [skip_space]. destruct (tolower_class c) as (-> & _).
  destruct (isspace c); [exact IH | reflexivity].
Qed.

Lemma read_digits_lower (s : string) :
  forall acc seen,
    read_digits acc seen (lower s)
    = (fst (fst (read_digits acc seen s)), snd (fst (read_digits acc seen s)),
       lower (snd (read_digits acc seen s))).
Proof.
  induction s as [|c s IH]; intros acc seen; [reflexivity|].
  change (lower (String c s)) with (String (tolower c) (lower s)).
  cbn [read_digits]. destruct (tolower_class c) as (_ & -> & Hd & _).
  destruct (isdigit c) eqn:E; [|reflexivity].
  rewrite (Hd eq_refl). apply IH.
Qed.

(** The sign of a literal, and what follows it. *)
Lemma sign_cases (c : ascii) (r : string) :
  (c = "+"%char \/ c = "-"%char) /\ tolower c = c
  \/ (forall (A : Type) (x y : string -> A) (z : A),
        match String c r with
        | String "+" r0 => x r0
        | String "-" r0 => y r0
        | _ => z
        end = z)
     /\ (forall (A : Type) (x y : string -> A) (z : A),
        match String (tolower c) (lower r) with
        | String "+" r0 => x r0
        | String "-" r0 => y r0
        | _ => z
        end = z).
Proof.
  destruct c as [[] [] [] [] [] [] [] []];
    first [ right; split; reflexivity | left; split; [auto | reflexivity] ].
Qed.

Lemma skip_space_empty_lower (s : string) :
  match skip_space (lower s) with EmptyString => true | _ => false end
  = match skip_space s with EmptyString => true | _ => false end.
Proof. rewrite skip_space_lower. now destruct (skip_space s). Qed.

(** Lowercasing a string does not change how [int] reads it. *)
Lemma int_of_str_lower (s : string) : int_of_str (lower s) = int_of_str s.
Proof.
  assert (Htail : forall negative t,
    (let '(n, seen, rest) := read_digits 0 false (skip_space (lower t)) in
     if seen then
       match skip_space rest with
       | EmptyString => Some (if negative : bool then - n else n)
       | _ => None
       end
     else None)
    = (let '(n, seen, rest) := read_digits 0 false (skip_space t) in
       if seen then
         match skip_space rest with
         | EmptyString => Some (if negative then - n else n)
         | _ => None
         end
       else None)).
  { intros negative t. rewrite skip_space_lower, read_digits_lower.
    destruct (read_digits 0 false (skip_space t)) as [[n seen] rest]. cbn [fst snd].
    destruct seen; [|reflexivity].
    rewrite skip_space_lower. now destruct (skip_space rest). }
  unfold int_of_str. rewrite skip_space_lower.
  destruct (skip_space s) as [|c r]; [reflexivity|].
  change (lower (String c r)) with (String (tolower c) (lower r)).
  destruct (sign_cases c r) as [[[-> | ->] _]|[H1 H2]].
  - apply (Htail false r).
  - apply (Htail true r).
  - rewrite H1, H2. apply (Htail false (String c r)).
Qed.

(** X1.  The resolver does not distinguish a string from its lowercase
    form: one resolves to an integer exactly when the other resolves to the
    same integer. *)
Theorem check_threshold_case_insensitive (s : string) (n : Z) :
  OptionParser.check_threshold (VStr s) = Ok n
  <-> OptionParser.check_threshold (VStr (lower s)) = Ok n.
Proof.
  rewrite !check_threshold_str, int_of_str_lower, lower_idempotent.
  destruct (int_of_str s); [reflexivity|].
  destruct (OptionParser.thresholds !! lower s); [reflexivity|].
  split; discriminate.
Qed.

Lemma check_threshold_case_insensitive_witness :
  OptionParser.check_threshold (VStr "warning") = Ok 2.
Proof.
  apply (proj1 (check_threshold_case_insensitive "WARNING" 2)). reflexivity.
Defined.

(** X2.  A threshold given by name resolves to an ordinal from 1 to 5:
    only a numeral can resolve to an integer outside that range. *)
Theorem check_threshold_name_range (s : string) (n : Z) :
  int_of_str s = None ->
  OptionParser.check_threshold (VStr s) = Ok n ->
  1 <= n <= 5.
Proof.
  intros E H. rewrite check_threshold_str, E in H.
  destruct (OptionParser.thresholds !! lower s) as [m|] eqn:Em; [|discriminate].
  injection H as ->. apply thresholds_table in Em.
  repeat (apply elem_of_cons in Em as [[= _ ->]|Em]; [lia|]).
  inversion Em.
Qed.

Lemma check_threshold_name_range_witness :
  1 <= 4 <= 5.
Proof.
  apply (check_threshold_name_range "Severe" 4); reflexivity.
Defined.

Lemma threshold_choices_eq :
  OptionParser.threshold_choices
  = ["info"; "1"; "warning"; "2"; "error"; "3"; "severe"; "4"; "none"; "5"].
Proof. vm_compute. reflexivity. Qed.

Lemma threshold_choice_resolves (s : string) :
  s ∈ OptionParser.threshold_choices ->
  exists n, OptionParser.check_threshold (VStr s) = Ok n /\ 1 <= n <= 5.
Proof.
  rewrite threshold_choices_eq. intros H.
  repeat (apply elem_of_cons in H as [->|H];
            [eexists; split; [vm_compute; reflexivity|lia]|]).
  inversion H.
Qed.

(** X3.  The choices that the command line accepts and the table of
    thresholds agree: every choice resolves, to an ordinal from 1 to 5, and
    the choices come in pairs of a name and the numeral it resolves to. *)
Theorem threshold_choices_resolve :
  (forall c, c ∈ OptionParser.threshold_choices ->
     exists n, OptionParser.check_threshold (VStr c) = Ok n /\ 1 <= n <= 5)
  /\ (forall i name numeral,
        OptionParser.threshold_choices !! (2 * i)%nat = Some name ->
        OptionParser.threshold_choices !! (2 * i + 1)%nat = Some numeral ->
        OptionParser.thresholds !! name = int_of_str numeral
        /\ OptionParser.check_threshold (VStr name)
           = OptionParser.check_threshold (VStr numeral)).
Proof.
  split; [exact threshold_choice_resolves|].
  rewrite threshold_choices_eq. intros i name numeral H1 H2.
  do 5 (destruct i as [|i];
        [cbn in H1, H2; injection H1 as <-; injection H2 as <-;
         split; vm_compute; reflexivity|]).
  apply lookup_lt_Some in H1. cbn [length] in H1. lia.
Qed.

Lemma threshold_choices_resolve_witness :
  OptionParser.check_threshold (VStr "error") = OptionParser.check_threshold (VStr "3").
Proof.
  apply (proj2 threshold_choices_resolve 2%nat "error" "3"); reflexivity.
Defined.



(** ** Further properties of the post-parse entry point *)

Lemma cmdline_threshold_resolves (v : value) :
  cmdline_threshold v = true -> exists n, OptionParser.check_threshold v = Ok n.
Proof.
  destruct v as [|n|s|l]; cbn; try discriminate.
  - intros _. now exists n.
  - intros H. apply bool_decide_eq_true in H.
    destruct (threshold_choice_resolves s H) as (n & Hn & _). now exists n.
Qed.

Lemma check_args_cases (args : list value) :
  ((length args <= 2)%nat
   /\ OptionParser.check_args args
      = (Ok (default VNone (args !! 0%nat), default VNone (args !! 1%nat)), []))
  \/ ((2 < length args)%nat
      /\ OptionParser.check_args args
         = (Raise (OptionError "Maximum 2 arguments allowed."), drop 2 args)).
Proof.
  destruct args as [|a [|b [|c rest]]]; cbn;
    [left|left|left|right]; split; try reflexivity; lia.
Qed.

(** X5.  When the [values] object has no [report_level] the entry point
    raises [AttributeError] and changes nothing; when it has a
    [report_level] that resolves but no [halt_level], it raises
    [AttributeError] after [report_level] has been overwritten.  In both
    cases no argument is consumed. *)
Theorem check_values_missing_attribute (values : gmap string value)
    (args : list value) :
  (values !! "report_level" = None ->
   OptionParser.check_values (values, args) = (Raise AttributeError, (values, args)))
  /\ (forall rl r,
        values !! "report_level" = Some rl ->
        OptionParser.check_threshold rl = Ok r ->
        values !! "halt_level" = None ->
        OptionParser.check_values (values, args)
        = (Raise AttributeError, (<["report_level" := VInt r]> values, args))).
Proof.
  rewrite check_values_finalize. unfold finalize, resolve_field. split.
  - intros E. now rewrite E.
  - intros rl r E1 E2 E3. rewrite E1, E2.
    rewrite lookup_insert_ne by discriminate. now rewrite E3.
Qed.

Lemma check_values_missing_attribute_witness :
  OptionParser.check_values ({[ "halt_level" := VInt 4 ]}, [VStr "a"])
  = (Raise AttributeError, ({[ "halt_level" := VInt 4 ]}, [VStr "a"]))
  /\ OptionParser.check_values ({[ "report_level" := VStr "info" ]}, [VStr "a"])
     = (Raise AttributeError,
        (<["report_level" := VInt 1]> {[ "report_level" := VStr "info" ]}, [VStr "a"])).
Proof.
  split.
  - apply (proj1 (check_values_missing_attribute {[ "halt_level" := VInt 4 ]} [VStr "a"])).
    reflexivity.
  - apply (proj2 (check_values_missing_attribute {[ "report_level" := VStr "info" ]}
                    [VStr "a"]) (VStr "info") 1); reflexivity.
Defined.

(** The [values] object as the entry point leaves it. *)
Lemma check_values_final_values (values : gmap string value) (args : list value) :
  let values' := (snd (OptionParser.check_values (values, args))).1 in
  values' = values
  \/ (exists r, values' = <["report_level" := VInt r]> values)
  \/ (exists r h, values' = <["halt_level" := VInt h]> (<["report_level" := VInt r]> values)).
Proof.
  rewrite check_values_finalize. unfold finalize, resolve_field.
  destruct (values !! "report_level") as [rl|]; [|left; reflexivity].
  destruct (OptionParser.check_threshold rl) as [r|e|]; try (left; reflexivity).
  destruct (<["report_level":=VInt r]> values !! "halt_level") as [hl|];
    [|right; left; eexists; reflexivity].
  destruct (OptionParser.check_threshold hl) as [h|e|];
    try (right; left; eexists; reflexivity).
  right; right. exists r, h.
  destruct (OptionParser.check_args args) as [[[s d]|e|] args']; reflexivity.
Qed.

(** X6.  Whatever its outcome, the entry point changes no attribute of
    [values] other than [report_level] and [halt_level]; and when it
    succeeds, the object it returns is the [values] object as it left it, in
    which both levels are integers. *)
Theorem check_values_frame (values : gmap string value) (args : list value) :
  (forall k, k <> "report_level" -> k <> "halt_level" ->
     (snd (OptionParser.check_values (values, args))).1 !! k = values !! k)
  /\ (forall values' source destination st,
        OptionParser.check_values (values, args)
        = (Ok (values', source, destination), st) ->
        st.1 = values'
        /\ exists r h, values' !! "report_level" = Some (VInt r)
                       /\ values' !! "halt_level" = Some (VInt h)).
Proof.
  split.
  - intros k Hr Hh.
    destruct (check_values_final_values values args) as [->|[[r ->]|(r & h & ->)]].
    + reflexivity.
    + now rewrite lookup_insert_ne.
    + now rewrite !lookup_insert_ne.
  - intros values' s d st. rewrite check_values_finalize. unfold finalize, resolve_field.
    destruct (values !! "report_level") as [rl|]; [|discriminate].
    destruct (OptionParser.check_threshold rl) as [r|e|]; try discriminate.
    destruct (<["report_level":=VInt r]> values !! "halt_level") as [hl|]; [|discriminate].
    destruct (OptionParser.check_threshold hl) as [h|e|]; try discriminate.
    destruct (OptionParser.check_args args) as [[[s' d']|e|] args']; try discriminate.
    intros [= <- <- <- <-]. split; [reflexivity|]. exists r, h. split.
    + rewrite lookup_insert_ne by discriminate. apply lookup_insert_eq.
    + apply lookup_insert_eq.
Qed.

Lemma check_values_frame_witness :
  let values : gmap string value :=
    {[ "report_level" := VStr "info"; "halt_level" := VStr "bogus";
       "language_code" := VStr "en" ]} in
  (snd (OptionParser.check_values (values, []))).1 !! "language_code" = Some (VStr "en").
Proof.
  intros values.
  rewrite (proj1 (check_values_frame values []) "language_code"); [reflexivity| |];
    discriminate.
Defined.

(** X7.  Running the entry point again on the [values] object that it
    returned changes nothing in it: the levels are integers already, and the
    outcome of the second run is that of validating its arguments. *)
Theorem check_values_idempotent (values values' : gmap string value)
    (args args2 : list value) (source destination : value)
    (st : gmap string value * list value) :
  OptionParser.check_values (values, args) = (Ok (values', source, destination), st) ->
  OptionParser.check_values (values', args2)
  = (match fst (OptionParser.check_args args2) with
     | Ok sd => Ok (values', sd.1, sd.2)
     | Raise e => Raise e
     | Diverge => Diverge
     end,
     (values', snd (OptionParser.check_args args2))).
Proof.
  intros H.
  assert (Hv : exists r h, values' !! "report_level" = Some (VInt r)
                           /\ values' !! "halt_level" = Some (VInt h)).
  { revert H. rewrite check_values_finalize. unfold finalize, resolve_field.
    destruct (values !! "report_level") as [rl|]; [|discriminate].
    destruct (OptionParser.check_threshold rl) as [r|e|]; try discriminate.
    destruct (<["report_level":=VInt r]> values !! "halt_level") as [hl|]; [|discriminate].
    destruct (OptionParser.check_threshold hl) as [h|e|]; try discriminate.
    destruct (OptionParser.check_args args) as [[[s' d']|e|] args']; try discriminate.
    intros [= <- <- <- <-]. exists r, h. split.
    - rewrite lookup_insert_ne by discriminate. apply lookup_insert_eq.
    - apply lookup_insert_eq. }
  destruct Hv as (r & h & Hr & Hh).
  rewrite check_values_finalize. unfold finalize, resolve_field.
  rewrite Hr. cbn [OptionParser.check_threshold int try_except].
  rewrite (insert_id values' "report_level" (VInt r) Hr), Hh.
  cbn [OptionParser.check_threshold int try_except].
  rewrite (insert_id values' "halt_level" (VInt h) Hh).
  destruct (OptionParser.check_args args2) as [[[s2 d2]|e|] args2']; reflexivity.
Qed.

Lemma check_values_idempotent_witness :
  let values : gmap string value :=
    {[ "report_level" := VStr "info"; "halt_level" := VStr "5" ]} in
  let values' := <["halt_level" := VInt 5]> (<["report_level" := VInt 1]> values) in
  OptionParser.check_values (values', [VStr "x"; VStr "y"])
  = (Ok (values', VStr "x", VStr "y"), (values', [])).
Proof.
  intros values values'.
  apply (check_values_idempotent values values' [VStr "in.txt"] [VStr "x"; VStr "y"]
           (VStr "in.txt") VNone (values', [])).
  reflexivity.
Defined.

(** X8.  With more than two arguments the entry point fails only after its
    side effects: both levels have been overwritten in [values] and the first
    two arguments have been taken off the list. *)
Theorem check_values_too_many_arguments (values : gmap string value)
    (args : list value) (rl hl : value) (r h : Z) :
  values !! "report_level" = Some rl ->
  values !! "halt_level" = Some hl ->
  OptionParser.check_threshold rl = Ok r ->
  OptionParser.check_threshold hl = Ok h ->
  (2 < length args)%nat ->
  OptionParser.check_values (values, args)
  = (Raise (OptionError "Maximum 2 arguments allowed."),
     (<["halt_level" := VInt h]> (<["report_level" := VInt r]> values), drop 2 args)).
Proof.
  intros E1 E2 E3 E4 Hlen.
  rewrite check_values_finalize. unfold finalize, resolve_field.
  rewrite E1, E3. rewrite lookup_insert_ne by discriminate. rewrite E2, E4.
  destruct (check_args_cases args) as [[Hle _]|[_ ->]]; [lia|reflexivity].
Qed.

Lemma check_values_too_many_arguments_witness :
  let values : gmap string value :=
    {[ "report_level" := VStr "info"; "halt_level" := VStr "5" ]} in
  OptionParser.check_values (values, [VStr "a"; VStr "b"; VStr "c"])
  = (Raise (OptionError "Maximum 2 arguments allowed."),
     (<["halt_level" := VInt 5]> (<["report_level" := VInt 1]> values), [VStr "c"])).
Proof.
  intros values.
  apply (check_values_too_many_arguments values [VStr "a"; VStr "b"; VStr "c"]
           (VStr "info") (VStr "5") 1 5); try reflexivity.
  cbn. lia.
Defined.

(** X9.  When both levels are as the command line leaves them, an integer
    or one of the ten choices, the entry point succeeds with at most two
    arguments, which it consumes, and fails with more than two, with the
    error of the validator; it fails in no other way. *)
Theorem check_values_cmdline_thresholds (values : gmap string value)
    (args : list value) (rl hl : value) :
  values !! "report_level" = Some rl ->
  values !! "halt_level" = Some hl ->
  cmdline_threshold rl = true ->
  cmdline_threshold hl = true ->
  ((length args <= 2)%nat ->
   exists values',
     OptionParser.check_values (values, args)
     = (Ok (values', default VNone (args !! 0%nat), default VNone (args !! 1%nat)),
        (values', [])))
  /\ ((2 < length args)%nat ->
      fst (OptionParser.check_values (values, args))
      = Raise (OptionError "Maximum 2 arguments allowed."))
  /\ (forall e, fst (OptionParser.check_values (values, args)) = Raise e ->
        e = OptionError "Maximum 2 arguments allowed." /\ (2 < length args)%nat).
Proof.
  intros E1 E2 H1 H2.
  destruct (cmdline_threshold_resolves rl H1) as [r Hr].
  destruct (cmdline_threshold_resolves hl H2) as [h Hh].
  rewrite check_values_finalize. unfold finalize, resolve_field.
  rewrite E1, Hr. rewrite lookup_insert_ne by discriminate. rewrite E2, Hh.
  destruct (check_args_cases args) as [[Hle ->]|[Hgt ->]]; split; [|split| |split].
  - intros _. eexists. reflexivity.
  - intros Hgt. lia.
  - discriminate.
  - intros Hle. lia.
  - intros _. reflexivity.
  - intros e [= <-]. auto.
Qed.

Lemma check_values_cmdline_thresholds_witness :
  let values : gmap string value :=
    {[ "report_level" := VInt 2; "halt_level" := VStr "severe" ]} in
  (exists values',
     OptionParser.check_values (values, [VStr "a"])
     = (Ok (values', VStr "a", VNone), (values', [])))
  /\ fst (OptionParser.check_values (values, [VStr "a"; VStr "b"; VStr "c"]))
     = Raise (OptionError "Maximum 2 arguments allowed.").
Proof.
  intros values. split.
  - apply (proj1 (check_values_cmdline_thresholds values [VStr "a"] (VInt 2) (VStr "severe")
                    eq_refl eq_refl eq_refl eq_refl)).
    cbn. lia.
  - apply (proj1 (proj2 (check_values_cmdline_thresholds values
                           [VStr "a"; VStr "b"; VStr "c"] (VInt 2) (VStr "severe")
                           eq_refl eq_refl eq_refl eq_refl))).
    cbn. lia.
Defined.

(** ** Further properties of the normaliser of configuration keys *)

Lemma map_string_app (f : ascii -> ascii) (s t : string) :
  map_string f (s +:+ t) = map_string f s +:+ map_string f t.
Proof.
  induction s as [|c s IH]; [reflexivity|].
  change (String c s +:+ t) with (String c (s +:+ t)).
  change (String (f c) (map_string f s) +:+ map_string f t)
    with (String (f c) (map_string f s +:+ map_string f t)).
  cbn [map_string]. now rewrite IH.
Qed.

Lemma normalize_char_fixed (c : ascii) :
  normalize_char c = c <-> canonical_char c = true.
Proof.
  destruct c as [[] [] [] [] [] [] [] []]; cbn; split; intros H;
    first [reflexivity | discriminate H].
Qed.

(** X10.  The keys that normalisation leaves as they are are exactly the
    keys without uppercase letter and without dash; in particular the result
    of normalisation is such a key. *)
Theorem optionxform_fixed_points (key : string) :
  (ConfigParser.optionxform key = key <-> canonical key = true)
  /\ canonical (ConfigParser.optionxform key) = true.
Proof.
  rewrite optionxform_map. split.
  - induction key as [|c key IH]; cbn; [tauto|].
    rewrite andb_true_iff, <- IH, <- normalize_char_fixed. split.
    + intros [= H1 H2]. split; [exact H1|exact H2].
    + intros [H1 H2]. rewrite H1. f_equal. exact H2.
  - induction key as [|c key IH]; cbn; [reflexivity|].
    rewrite IH, andb_true_r. apply normalize_char_fixed, normalize_char_idempotent.
Qed.

Lemma optionxform_fixed_points_witness :
  ConfigParser.optionxform "report_level" = "report_level".
Proof.
  apply (proj2 (proj1 (optionxform_fixed_points "report_level"))). reflexivity.
Defined.

(** X11.  Normalisation goes through concatenation: normalising a key
    made of two parts is normalising the parts. *)
Theorem optionxform_app (s t : string) :
  ConfigParser.optionxform (s +:+ t)
  = ConfigParser.optionxform s +:+ ConfigParser.optionxform t.
Proof. rewrite !optionxform_map. apply map_string_app. Qed.

(** X12.  Two keys have the same normal form exactly when they have the
    same length and agree character by character up to case and up to dash
    against underscore. *)
Theorem optionxform_eq_iff (s t : string) :
  ConfigParser.optionxform s = ConfigParser.optionxform t
  <-> String.length s = String.length t
      /\ forall i c d, String.get i s = Some c -> String.get i t = Some d ->
                       normalize_char c = normalize_char d.
Proof.
  rewrite !optionxform_map. revert t.
  induction s as [|c s IH]; intros [|d t]; cbn.
  - split; [intros _; split; [reflexivity|intros i ? ? H; discriminate H] | reflexivity].
  - split; [discriminate | intros [H _]; discriminate H].
  - split; [discriminate | intros [H _]; discriminate H].
  - split.
    + intros [= Hc Hs]. apply IH in Hs as [Hl Hs]. split; [now rewrite Hl|].
      intros [|i] c' d' H1 H2.
      * injection H1 as <-. injection H2 as <-. exact Hc.
      * exact (Hs i c' d' H1 H2).
    + intros [Hl H]. f_equal.
      * exact (H 0%nat c d eq_refl eq_refl).
      * apply IH. split; [now injection Hl|].
        intros i c' d' H1 H2. exact (H (S i) c' d' H1 H2).
Qed.

Lemma optionxform_eq_iff_witness :
  String.length "Report-Level" = String.length "report_level".
Proof.
  apply (proj1 (optionxform_eq_iff "Report-Level" "report_level")). reflexivity.
Defined.

(** ** Further properties of merging *)

Lemma for_each_app {S A : Type} (body : A -> M S unit) (l1 l2 : list A) (s : S) :
  OptionParser.for_each body (l1 ++ l2) s
  = (OptionParser.for_each body l1 ;;; OptionParser.for_each body l2)%py s.
Proof.
  revert s. induction l1 as [|x l1 IH]; intros s.
  - reflexivity.
  - cbn [app OptionParser.for_each]. unfold bind in *.
    destruct (body x s) as [[[]|e|] s1]; [apply IH|reflexivity|reflexivity].
Qed.

(** X13.  Merging a list of components made of two parts is merging the
    first part and then, when that succeeded, the second part on the parser
    as the first part left it; when the first part fails, the second part is
    not merged at all. *)
Theorem populate_from_components_app (cs1 cs2 : list (option Component.t))
    (p : optik.OptionParser) :
  OptionParser.populate_from_components (cs1 ++ cs2) p
  = match OptionParser.populate_from_components cs1 p with
    | (Ok _, p1) => OptionParser.populate_from_components cs2 p1
    | (Raise e, p1) => (Raise e, p1)
    | (Diverge, p1) => (Diverge, p1)
    end.
Proof.
  unfold OptionParser.populate_from_components. rewrite for_each_app. reflexivity.
Qed.

(** X14.  Components that are [None] and components whose specification
    is empty are skipped: leaving them out changes neither the outcome of
    merging nor the parser. *)
Theorem populate_from_components_skips_none (cs : list (option Component.t))
    (p : optik.OptionParser) :
  OptionParser.populate_from_components cs p
  = OptionParser.populate_from_components (Some <$> omap id cs) p
  /\ OptionParser.populate_from_components (Some (Component.Make []) :: cs) p
     = OptionParser.populate_from_components cs p
  /\ OptionParser.populate_from_components (None :: cs) p
     = OptionParser.populate_from_components cs p.
Proof.
  repeat split; try reflexivity.
  unfold OptionParser.populate_from_components. revert p.
  induction cs as [|[c|] cs IH]; intros p.
  - reflexivity.
  - cbn [omap fmap list_fmap list_omap id OptionParser.for_each]. unfold bind.
    destruct (OptionParser.populate_component (Some c) p) as [[[]|e|] p1];
      [apply IH|reflexivity|reflexivity].
  - cbn [OptionParser.for_each]. apply IH.
Qed.

(** *** What merging keeps *)

Lemma extends_refl (p : optik.OptionParser) : extends p p.
Proof. repeat split; exists []; now rewrite app_nil_r. Qed.

Lemma extends_trans (p1 p2 p3 : optik.OptionParser) :
  extends p1 p2 -> extends p2 p3 -> extends p1 p3.
Proof.
  intros (Hv1 & [us1 Hu1] & [gs1 Hg1] & [os1 Ho1]) (Hv2 & [us2 Hu2] & [gs2 Hg2] & [os2 Ho2]).
  repeat split.
  - congruence.
  - exists (us1 ++ us2). now rewrite Hu2, Hu1, app_assoc.
  - exists (gs1 ++ gs2). now rewrite Hg2, Hg1, app_assoc.
  - exists (os1 ++ os2). now rewrite Ho2, Ho1, app_assoc.
Qed.

Lemma extends_merge_triple (title description : item) (os : list optik.Option)
    (p : optik.OptionParser) :
  extends p (merge_triple title description os p).
Proof.
  unfold merge_triple. destruct (item_truth title); repeat split; cbn; eauto.
  - exists []. now rewrite app_nil_r.
  - exists []. now rewrite app_nil_r.
Qed.

Lemma populate_items_extends (l : list item) :
  forall p, extends p (snd (populate_items l p)).
Proof.
  induction l as [| | |a b c rest IH] using triples_ind; intros p;
    try apply extends_refl.
  cbn [populate_items]. unfold bind.
  destruct (populate_triple_cases a b c p) as (os & r & _ & Hp & _ & _).
  pose proof (extends_merge_triple a b os p) as He. rewrite <- Hp in He.
  destruct (OptionParser.populate_triple a b c p) as [[[]|e|] p1]; cbn in *;
    [|exact He|exact He].
  exact (extends_trans _ _ _ He (IH p1)).
Qed.

Lemma populate_from_components_extends (cs : list (option Component.t)) :
  forall p, extends p (snd (OptionParser.populate_from_components cs p)).
Proof.
  unfold OptionParser.populate_from_components.
  induction cs as [|c cs IH]; intros p; [apply extends_refl|].
  cbn [OptionParser.for_each]. unfold bind. rewrite populate_component_items.
  pose proof (populate_items_extends (component_spec c) p) as He.
  destruct (populate_items (component_spec c) p) as [[[]|e|] p1]; cbn in *;
    [|exact He|exact He].
  exact (extends_trans _ _ _ He (IH p1)).
Qed.

(** X15.  Merging only ever adds at the end: whatever its outcome, also a
    failure half-way, it leaves the version of the parser as it was, and the
    options of the top-level bucket, the sections and the registered flag
    definitions that the parser had are still there, unchanged and in the
    same order, at the front of those it has afterwards. *)
Theorem populate_from_components_only_appends (cs : list (option Component.t))
    (p : optik.OptionParser) :
  let p' := snd (OptionParser.populate_from_components cs p) in
  optik.version p' = optik.version p
  /\ (exists us, optik.option_list p' = optik.option_list p ++ us)
  /\ (exists gs, optik.option_groups p' = optik.option_groups p ++ gs)
  /\ (exists os, optik.registered p' = optik.registered p ++ os).
Proof. exact (populate_from_components_extends cs p). Qed.

(** X16.  After construction, successful or not, the version of the
    parser is the version it was given when that is a non-empty string, and
    otherwise the template with the version of the package. *)
Theorem init_version (docutils_version : string) (version : value)
    (components : list (option Component.t)) :
  optik.version (snd (OptionParser.__init__ docutils_version version components))
  = if truth version then version
    else VStr ("%prog (Docutils " +:+ docutils_version +:+ ")").
Proof.
  unfold OptionParser.__init__.
  destruct (populate_from_components_extends
              (components ++ [Some OptionParser.self_component])
              (if truth (optik.version (optik.new_parser version))
               then optik.new_parser version
               else optik.MakeParser (VStr (OptionParser.version_template docutils_version))
                      (optik.option_list (optik.new_parser version))
                      (optik.option_groups (optik.new_parser version))
                      (optik.registered (optik.new_parser version)))) as [Hv _].
  rewrite Hv. cbn [optik.new_parser optik.version].
  destruct (truth version); reflexivity.
Qed.

(** *** Collisions *)

Lemma for_each_call_add_option_collision (c : optik.container) (es : list entry) :
  forall p,
    forallb no_help_key es = true ->
    no_collision (optik.registered_strings p) es = false ->
    exists s p',
      OptionParser.for_each (OptionParser.call_add_option c) es p
      = (Raise (OptionConflictError s), p')
      /\ s ∈ concat (map option_strings es).
Proof.
  induction es as [|e es IH]; intros p Hh Hc; [discriminate|].
  cbn in Hh, Hc. apply andb_true_iff in Hh as [Hh1 Hh2].
  cbn [OptionParser.for_each]. unfold bind. unfold OptionParser.call_add_option at 1.
  unfold no_help_key in Hh1. destruct (kwargs e !! "help"); [discriminate|].
  destruct (add_option_cases c (option_strings e) (help_text e) (kwargs e) p)
    as [(s & Hin & _ & ->)|[Hfresh ->]].
  - exists s, p. split; [reflexivity|]. cbn. apply elem_of_app. now left.
  - assert (Hf : forallb (fun s => negb (bool_decide (s ∈ optik.registered_strings p)))
                   (option_strings e) = true).
    { apply forallb_forall. intros s Hin. rewrite <- list_elem_of_In in Hin.
      apply negb_true_iff, bool_decide_eq_false. now apply Hfresh. }
    rewrite Hf in Hc. cbn in Hc.
    change (optik.MakeOption (option_strings e) (help_text e) (kwargs e))
      with (option_of e).
    destruct (IH (add_all c [option_of e] p) Hh2) as (s & p' & -> & Hin).
    { rewrite registered_strings_add_all. cbn. now rewrite app_nil_r. }
    exists s, p'. split; [reflexivity|]. cbn. apply elem_of_app. now right.
Qed.

Lemma populate_triple_collision (title description : item) (es : list entry)
    (p : optik.OptionParser) :
  forallb no_help_key es = true ->
  no_collision (optik.registered_strings p) es = false ->
  exists s p',
    OptionParser.populate_triple title description (Entries es) p
    = (Raise (OptionConflictError s), p')
    /\ s ∈ concat (map option_strings es).
Proof.
  intros Hh Hc. unfold OptionParser.populate_triple.
  destruct (item_truth title); unfold bind, optik.add_option_group, ret, lift;
    cbn [OptionParser.iterate].
  - edestruct (for_each_call_add_option_collision) as (s & p' & -> & Hin);
      [exact Hh| |eauto].
    exact Hc.
  - edestruct (for_each_call_add_option_collision) as (s & p' & -> & Hin);
      [exact Hh| |eauto].
    exact Hc.
Qed.

Lemma populate_items_collision (l : list item) :
  forall p,
    well_formed_spec l = true ->
    no_collision (optik.registered_strings p) (spec_entries l) = false ->
    exists s p',
      populate_items l p = (Raise (OptionConflictError s), p')
      /\ s ∈ concat (map option_strings (spec_entries l)).
Proof.
  induction l as [| | |a b c rest IH] using triples_ind; intros p Hw Hc;
    try discriminate.
  cbn in Hw. destruct c as [v|es]; [discriminate|].
  apply andb_true_iff in Hw as [Hw1 Hw2].
  change (spec_entries (a :: b :: Entries es :: rest)) with (es ++ spec_entries rest) in *.
  rewrite no_collision_app in Hc. rewrite map_app, concat_app.
  cbn [populate_items]. unfold bind.
  destruct (no_collision (optik.registered_strings p) es) eqn:Hes.
  - rewrite populate_triple_ok by assumption.
    destruct (IH (merge_triple a b (map option_of es) p) Hw2) as (s & p' & -> & Hin).
    { change es with (entries_of (Entries es)) at 1.
      rewrite merge_triple_merged, registered_strings_merged. exact Hc. }
    exists s, p'. split; [reflexivity|]. apply elem_of_app. now right.
  - destruct (populate_triple_collision a b es p Hw1 Hes) as (s & p' & -> & Hin).
    exists s, p'. split; [reflexivity|]. apply elem_of_app. now left.
Qed.

Lemma populate_from_components_collision (cs : list (option Component.t)) :
  forall p,
    all_well_formed cs = true ->
    no_collision (optik.registered_strings p) (concat (map component_entries cs)) = false ->
    exists s p',
      OptionParser.populate_from_components cs p = (Raise (OptionConflictError s), p')
      /\ s ∈ concat (map option_strings (concat (map component_entries cs))).
Proof.
  unfold OptionParser.populate_from_components, all_well_formed.
  induction cs as [|c cs IH]; intros p Hw Hc; [discriminate|].
  cbn in Hw, Hc. apply andb_true_iff in Hw as [Hw1 Hw2].
  rewrite no_collision_app in Hc.
  cbn [map concat]. rewrite map_app, concat_app.
  cbn [OptionParser.for_each]. unfold bind. rewrite populate_component_items.
  destruct (no_collision (optik.registered_strings p) (component_entries c)) eqn:Hes.
  - rewrite populate_items_well_formed by assumption.
    destruct (IH (merged (spec_entries (component_spec c))
                    (spec_ungrouped (component_spec c))
                    (spec_sections (component_spec c)) p) Hw2)
      as (s & p' & -> & Hin).
    { rewrite registered_strings_merged. exact Hc. }
    exists s, p'. split; [reflexivity|]. apply elem_of_app. now right.
  - destruct (populate_items_collision _ p Hw1 Hes) as (s & p' & -> & Hin).
    exists s, p'. split; [reflexivity|]. apply elem_of_app. now left.
Qed.

(** *** Success excludes collisions *)

Lemma for_each_call_add_option_success (c : optik.container) (es : list entry) :
  forall p p',
    OptionParser.for_each (OptionParser.call_add_option c) es p = (Ok tt, p') ->
    no_collision (optik.registered_strings p) es = true.
Proof.
  induction es as [|e es IH]; intros p p' H; [reflexivity|].
  cbn [OptionParser.for_each] in H. unfold bind in H.
  destruct (call_add_option_cases c e p) as [[x Hx]|(_ & Hfresh & Hok)].
  - rewrite Hx in H. discriminate.
  - rewrite Hok in H. apply IH in H.
    rewrite registered_strings_add_all in H. cbn in H. rewrite app_nil_r in H.
    cbn [no_collision]. rewrite H, andb_true_r.
    apply forallb_forall. intros s Hin. rewrite <- list_elem_of_In in Hin.
    apply negb_true_iff, bool_decide_eq_false. now apply Hfresh.
Qed.

Lemma populate_triple_success (title description option_spec : item)
    (p p' : optik.OptionParser) :
  OptionParser.populate_triple title description option_spec p = (Ok tt, p') ->
  no_collision (optik.registered_strings p) (entries_of option_spec) = true
  /\ optik.registered_strings p'
     = optik.registered_strings p ++ concat (map option_strings (entries_of option_spec)).
Proof.
  intros H. split.
  - revert H. unfold OptionParser.populate_triple.
    destruct (item_truth title); unfold bind, optik.add_option_group, ret, lift;
      (destruct (iterate_cases option_spec) as [E|[e E]]; rewrite E; [|discriminate]);
      intros H; apply for_each_call_add_option_success in H; exact H.
  - destruct (populate_triple_cases title description option_spec p)
      as (os & rest & Hos & Hp & Hok & _).
    rewrite H in Hp, Hok. cbn in Hp, Hok.
    rewrite (Hok eq_refl), app_nil_r in Hos. subst os p'.
    now rewrite merge_triple_merged, registered_strings_merged.
Qed.

Lemma populate_items_success (l : list item) :
  forall p p', populate_items l p = (Ok tt, p') ->
    no_collision (optik.registered_strings p) (spec_entries l) = true.
Proof.
  induction l as [| | |a b c rest IH] using triples_ind; intros p p' H;
    try discriminate; [reflexivity|].
  cbn [populate_items] in H. unfold bind in H.
  destruct (OptionParser.populate_triple a b c p) as [[[]|e|] p1] eqn:E;
    try discriminate.
  apply populate_triple_success in E as [Hc Hreg]. apply IH in H. rewrite Hreg in H.
  change (spec_entries (a :: b :: c :: rest)) with (entries_of c ++ spec_entries rest).
  now rewrite no_collision_app, Hc, H.
Qed.

Lemma populate_from_components_success (cs : list (option Component.t)) :
  forall p p', OptionParser.populate_from_components cs p = (Ok tt, p') ->
    no_collision (optik.registered_strings p) (concat (map component_entries cs)) = true.
Proof.
  unfold OptionParser.populate_from_components.
  induction cs as [|c cs IH]; intros p p' H; [reflexivity|].
  cbn [OptionParser.for_each] in H. unfold bind in H.
  rewrite populate_component_items in H.
  destruct (populate_items (component_spec c) p) as [[[]|e|] p1] eqn:E;
    try discriminate.
  pose proof (populate_items_success _ _ _ E) as Hc.
  apply populate_items_ok in E as [_ ->]. apply IH in H.
  rewrite registered_strings_merged in H.
  cbn [map concat]. rewrite no_collision_app.
  unfold component_entries at 1 2. now rewrite Hc, H.
Qed.

(** X17.  Construction never succeeds when two entries, the built-in ones
    included, share an option string: whatever the components, a construction
    that succeeds has merged entries of which no two share an option string,
    and one whose entries share an option string ends with an exception.
    When the specifications are well formed, that exception is the conflict
    error of [add_option]. *)
Theorem init_fails_on_collision (docutils_version : string) (version : value)
    (components : list (option Component.t)) :
  (fst (OptionParser.__init__ docutils_version version components) = Ok tt ->
   no_collision [] (all_entries components) = true)
  /\ (no_collision [] (all_entries components) = false ->
      exists e,
        fst (OptionParser.__init__ docutils_version version components) = Raise e)
  /\ (all_well_formed components = true ->
      no_collision [] (all_entries components) = false ->
      exists s,
        fst (OptionParser.__init__ docutils_version version components)
        = Raise (OptionConflictError s)).
Proof.
  unfold OptionParser.__init__, all_entries.
  set (self := if truth _ then _ else _).
  set (all := components ++ [Some OptionParser.self_component]).
  assert (Hreg : optik.registered_strings self = []).
  { subst self. destruct (truth _); reflexivity. }
  assert (Hok : fst (OptionParser.populate_from_components all self) = Ok tt ->
                no_collision [] (concat (map component_entries all)) = true).
  { intros H. rewrite <- Hreg.
    destruct (OptionParser.populate_from_components all self) as [r p'] eqn:E.
    cbn in H. subst r. exact (populate_from_components_success all self p' E). }
  split; [exact Hok|split].
  - intros Hc.
    pose proof (populate_from_components_never_diverges all self) as Hd.
    destruct (fst (OptionParser.populate_from_components all self)) as [[]|e|].
    + rewrite (Hok eq_refl) in Hc. discriminate.
    + now exists e.
    + congruence.
  - intros Hw Hc.
    assert (Hw' : all_well_formed all = true).
    { subst all. unfold all_well_formed in *. rewrite forallb_app, Hw. reflexivity. }
    rewrite <- Hreg in Hc.
    destruct (populate_from_components_collision all self Hw' Hc) as (s & p' & -> & _).
    now exists s.
Qed.

Lemma init_fails_on_collision_witness :
  let reader := Component.Make
    [Atom (VStr "Reader"); Atom VNone; Entries [Entry (VStr "x") ["--tab-width"] ∅]] in
  let writer := Component.Make
    [Atom (VStr "Writer"); Atom VNone; Entries [Entry (VStr "y") ["--tab-width"] ∅]] in
  exists s,
    fst (OptionParser.__init__ "0.2" VNone [Some reader; Some writer])
    = Raise (OptionConflictError s).
Proof.
  intros reader writer.
  exact (proj2 (proj2 (init_fails_on_collision "0.2" VNone [Some reader; Some writer]))
           eq_refl eq_refl).
Defined.

(** X18.  An entry whose keyword arguments hold a [help] key cannot be
    registered: merging its triple fails with a [TypeError], after the
    entries before it have been registered and with none of the entries from
    it on. *)
Theorem populate_triple_help_key (title description : item) (es1 es2 : list entry)
    (e : entry) (p : optik.OptionParser) :
  forallb no_help_key es1 = true ->
  no_collision (optik.registered_strings p) es1 = true ->
  no_help_key e = false ->
  OptionParser.populate_triple title description (Entries (es1 ++ e :: es2)) p
  = (Raise TypeError, merge_triple title description (map option_of es1) p).
Proof.
  intros Hh Hc He.
  assert (H : forall c p1,
    no_collision (optik.registered_strings p1) es1 = true ->
    OptionParser.for_each (OptionParser.call_add_option c) (es1 ++ e :: es2) p1
    = (Raise TypeError, add_all c (map option_of es1) p1)).
  { intros c p1 Hc1. rewrite for_each_app. unfold bind at 1.
    rewrite for_each_call_add_option_ok by assumption.
    cbn [OptionParser.for_each]. unfold bind. unfold OptionParser.call_add_option at 1.
    unfold no_help_key in He. destruct (kwargs e !! "help"); [reflexivity|discriminate]. }
  unfold OptionParser.populate_triple.
  destruct (item_truth title) eqn:Ht; unfold bind, optik.add_option_group, ret, lift;
    cbn [OptionParser.iterate].
  - rewrite H by exact Hc. now rewrite add_all_new_group.
  - rewrite H by exact Hc. now rewrite (add_all_self title description).
Qed.

Lemma populate_triple_help_key_witness :
  let good := Entry (VStr "a") ["-a"] ∅ in
  let bad := Entry (VStr "b") ["-b"] {[ "help" := VStr "again" ]} in
  OptionParser.populate_triple (Atom VNone) (Atom VNone) (Entries ([good] ++ bad :: []))
    (optik.new_parser VNone)
  = (Raise TypeError, optik.MakeParser VNone [option_of good] [] [option_of good]).
Proof.
  intros good bad.
  apply (populate_triple_help_key (Atom VNone) (Atom VNone) [good] [] bad
           (optik.new_parser VNone)); reflexivity.
Defined.

(** X19.  The parser's own specification merges by itself: construction
    without components always succeeds, with an empty top-level bucket, one
    section, the built-in one, and twenty registered options, whose option
    strings are all different. *)
Theorem init_without_components (docutils_version : string) (version : value) :
  (exists p,
     OptionParser.__init__ docutils_version version [] = (Ok tt, p)
     /\ optik.option_list p = []
     /\ optik.option_groups p = [builtin_section]
     /\ optik.registered p = map option_of builtin_entries
     /\ length (optik.registered p) = 20%nat)
  /\ NoDup (concat (map option_strings builtin_entries)).
Proof.
  split.
  - unfold OptionParser.__init__.
    set (self := if truth _ then _ else _).
    assert (Hself : optik.option_list self = [] /\ optik.option_groups self = []
                    /\ optik.registered self = []).
    { subst self. destruct (truth _); repeat split. }
    destruct Hself as (H1 & H2 & H3).
    destruct (populate_from_components_well_formed [Some OptionParser.self_component] self)
      as [p Hp]; [reflexivity|unfold optik.registered_strings; rewrite H3; reflexivity|].
    exists p. split; [exact Hp|].
    apply populate_from_components_ok in Hp as ->. cbn [merged optik.option_list
      optik.option_groups optik.registered]. rewrite H1, H2, H3.
    repeat split.
  - refine (@bool_decide_unpack
              (NoDup (concat (map option_strings builtin_entries))) _ _).
    vm_compute. exact I.
Qed.
